(** * chats.py: a question-answering assistant over a flat knowledge base

    Shallow embedding of [src/chats.py] and of the part of the Python
    runtime it relies on ([str] methods, [functools.lru_cache],
    [difflib.SequenceMatcher]), followed by the properties of the loader,
    the matcher, the response generator and the facade.

    Conventions.
    - A Python [str] is a list of Unicode code points ([list N]); [len],
      slicing and indexing count code points, as in Python.
    - Python [int]s that index or count are [nat].
    - The similarity score, a Python [float] equal to the correctly
      rounded quotient [2.0 * M / T] of two small integers, is the exact
      rational [2 * M / T] in lowest terms; the thresholds [0.4], [0.6]
      and [0.95] are the exact decimals.
    - Effects (files, the completion service, the two [lru_cache]s) are
      threaded through an explicit [World]; a call returns a [result]
      (a value or a raised exception) and the next world.
    - The command-line loop [main] and the helpers no function calls
      ([get_text_hash], [compress_text]) are not embedded. *)

From Stdlib Require Import QArith Qreduction.
From stdpp Require Import gmap list strings sorting.

Local Open Scope nat_scope.

(** ** Python text *)

Abbreviation str := (list N).

(** UTF-8 decoding of source literals, so that the constants below can be
    written as they appear in the program. *)
Fixpoint utf8_decode (bs : list N) : str :=
  match bs with
  | [] => []
  | b0 :: r =>
    if (b0 <? 128)%N then b0 :: utf8_decode r
    else if (b0 <? 224)%N then
      match r with
      | b1 :: r1 => ((b0 mod 32) * 64 + b1 mod 64)%N :: utf8_decode r1
      | _ => []
      end
    else if (b0 <? 240)%N then
      match r with
      | b1 :: b2 :: r2 =>
          ((b0 mod 16) * 4096 + (b1 mod 64) * 64 + b2 mod 64)%N :: utf8_decode r2
      | _ => []
      end
    else
      match r with
      | b1 :: b2 :: b3 :: r3 =>
          ((b0 mod 8) * 262144 + (b1 mod 64) * 4096 + (b2 mod 64) * 64 + b3 mod 64)%N
            :: utf8_decode r3
      | _ => []
      end
  end.

Definition py (s : string) : str :=
  utf8_decode (Ascii.N_of_ascii <$> String.list_ascii_of_string s).

(** [str.isspace] on one code point: the whitespace set of CPython's
    [_PyUnicode_IsWhitespace], which [str.strip()] removes. *)
Definition isspace (c : N) : bool :=
  ((9 <=? c) && (c <=? 13) || (28 <=? c) && (c <=? 32)
   || (c =? 133) || (c =? 160) || (c =? 5760)
   || (8192 <=? c) && (c <=? 8202)
   || (c =? 8232) || (c =? 8233) || (c =? 8239) || (c =? 8287)
   || (c =? 12288))%N.

Fixpoint drop_while {A} (p : A -> bool) (l : list A) : list A :=
  match l with
  | [] => []
  | x :: l' => if p x then drop_while p l' else l
  end.

Definition lstrip (s : str) : str := drop_while isspace s.
Definition rstrip (s : str) : str := reverse (drop_while isspace (reverse s)).
(** [s.strip()] *)
Definition strip (s : str) : str := rstrip (lstrip s).

(** [s.startswith(p)] *)
Fixpoint startswith (p s : str) : bool :=
  match p, s with
  | [], _ => true
  | _ :: _, [] => false
  | x :: p', y :: s' => (x =? y)%N && startswith p' s'
  end.

(** [s.find(sep)] for a non-empty [sep]: index of the first occurrence. *)
Fixpoint find (sep s : str) : option nat :=
  if startswith sep s then Some 0
  else match s with
       | [] => None
       | _ :: s' => S <$> find sep s'
       end.

(** [sep in s] *)
Definition contains (sep s : str) : bool := bool_decide (is_Some (find sep s)).

(** [s.split(sep, 1)]: at most one cut, at the first occurrence. *)
Definition split1 (sep s : str) : list str :=
  match find sep s with
  | Some i => [take i s; drop (i + length sep) s]
  | None => [s]
  end.

Definition dot_space : str := Eval vm_compute in py ". ".


(** ** [difflib.SequenceMatcher(None, a, b).ratio()]

    The standard-library matcher the program scores with, for the
    arguments the program passes: no junk predicate ([isjunk = None], so
    the junk set stays empty) and the default [autojunk = True]. *)
Module difflib.

(** A match [Match(a=i, b=j, size=k)]. *)
Abbreviation block := (nat * nat * nat)%type.

(** [__chain_b]: for each element of [b] the increasing list of its
    positions; when [len(b) >= 200] the elements occurring more than
    [len(b) // 100 + 1] times ("popular") are deleted. *)
Definition index_b (b : str) : gmap N (list nat) :=
  foldl (λ (b2j : gmap N (list nat)) '(i, elt),
           <[elt := default [] (b2j !! elt) ++ [i]]> b2j)
        ∅ (imap pair b).

Definition chain_b (b : str) : gmap N (list nat) :=
  let b2j := index_b b in
  let n := length b in
  if bool_decide (200 ≤ n) then
    let ntest := n / 100 + 1 in
    filter (λ kv : N * list nat, ¬ ntest < length kv.2) b2j
  else b2j.

(** [self.bjunk]: empty, as [isjunk] is [None]. *)
Definition bjunk : gset N := ∅.
Definition isbjunk (c : N) : bool := bool_decide (c ∈ bjunk).

(** [j2len.get(j - 1, 0)]; for [j = 0] the key [-1] is never present. *)
Definition j2lenget_pred (j2len : gmap nat nat) (j : nat) : nat :=
  match j with
  | 0 => 0
  | S j' => default 0 (j2len !! j')
  end.

(** The inner loop of [find_longest_match], over the positions [j] of
    [a[i]] in [b]: [continue] below [blo], [break] from [bhi] on. The block
    start [i - k + 1] is written [i + 1 - k] ([k <= i + 1] always). *)
Fixpoint scan_row (j2len : gmap nat nat) (i blo bhi : nat) (idxs : list nat)
    (newj2len : gmap nat nat) (best : block) : gmap nat nat * block :=
  match idxs with
  | [] => (newj2len, best)
  | j :: idxs' =>
    if bool_decide (j < blo) then scan_row j2len i blo bhi idxs' newj2len best
    else if bool_decide (bhi ≤ j) then (newj2len, best)
    else
      let k := j2lenget_pred j2len j + 1 in
      let newj2len := <[j := k]> newj2len in
      let best := if bool_decide (best.2 < k) then (i + 1 - k, j + 1 - k, k)
                  else best in
      scan_row j2len i blo bhi idxs' newj2len best
  end.

(** The outer loop, [for i in range(alo, ahi)]. *)
Fixpoint scan_rows (a : str) (b2j : gmap N (list nat)) (blo bhi : nat)
    (rows : list nat) (j2len : gmap nat nat) (best : block) : block :=
  match rows with
  | [] => best
  | i :: rows' =>
    let idxs := default [] (a !! i ≫= λ c, b2j !! c) in
    let '(newj2len, best') := scan_row j2len i blo bhi idxs ∅ best in
    scan_rows a b2j blo bhi rows' newj2len best'
  end.

(** [while besti > alo and bestj > blo and isbjunk(b[bestj-1]) == junk
     and a[besti-1] == b[bestj-1]]: grow the block to the left. *)
Fixpoint extend_left (a b : str) (junk : bool) (alo blo : nat)
    (besti bestj bestsize : nat) : block :=
  match besti, bestj with
  | S i', S j' =>
    match a !! i', b !! j' with
    | Some x, Some y =>
      if bool_decide (alo < besti) && bool_decide (blo < bestj)
         && eqb (isbjunk y) junk && (x =? y)%N
      then extend_left a b junk alo blo i' j' (S bestsize)
      else (besti, bestj, bestsize)
    | _, _ => (besti, bestj, bestsize)
    end
  | _, _ => (besti, bestj, bestsize)
  end.

(** [while besti+bestsize < ahi and bestj+bestsize < bhi and
     isbjunk(b[bestj+bestsize]) == junk and
     a[besti+bestsize] == b[bestj+bestsize]]: grow the block to the right;
    [steps] bounds the iterations by [ahi - (besti + bestsize)]. *)
Fixpoint extend_right (a b : str) (junk : bool) (ahi bhi : nat)
    (besti bestj bestsize : nat) (steps : nat) : nat :=
  match steps with
  | 0 => bestsize
  | S steps' =>
    match a !! (besti + bestsize), b !! (bestj + bestsize) with
    | Some x, Some y =>
      if bool_decide (besti + bestsize < ahi) && bool_decide (bestj + bestsize < bhi)
         && eqb (isbjunk y) junk && (x =? y)%N
      then extend_right a b junk ahi bhi besti bestj (S bestsize) steps'
      else bestsize
    | _, _ => bestsize
    end
  end.

Definition find_longest_match (a b : str) (b2j : gmap N (list nat))
    (alo ahi blo bhi : nat) : block :=
  let '(besti, bestj, bestsize) :=
    scan_rows a b2j blo bhi (seq alo (ahi - alo)) ∅ (alo, blo, 0) in
  let '(besti, bestj, bestsize) :=
    extend_left a b false alo blo besti bestj bestsize in
  let bestsize :=
    extend_right a b false ahi bhi besti bestj bestsize (ahi - (besti + bestsize)) in
  let '(besti, bestj, bestsize) :=
    extend_left a b true alo blo besti bestj bestsize in
  let bestsize :=
    extend_right a b true ahi bhi besti bestj bestsize (ahi - (besti + bestsize)) in
  (besti, bestj, bestsize).

(** The work-list loop of [get_matching_blocks]; the head of [queue] is
    the entry [queue.pop()] returns. Every iteration either finds no match
    in a window or removes at least one element of each sequence from
    consideration, so [len(a) + len(b) + 1] iterations always suffice
    (lemma [get_matching_blocks_fuel]). *)
Fixpoint matching_loop (a b : str) (b2j : gmap N (list nat)) (fuel : nat)
    (queue : list (nat * nat * nat * nat)) (matching_blocks : list block)
    : list block :=
  match fuel, queue with
  | S fuel', (alo, ahi, blo, bhi) :: queue' =>
    let '(i, j, k) := find_longest_match a b b2j alo ahi blo bhi in
    if bool_decide (k = 0) then matching_loop a b b2j fuel' queue' matching_blocks
    else
      let queue1 := if bool_decide (alo < i ∧ blo < j)
                    then (alo, i, blo, j) :: queue' else queue' in
      let queue2 := if bool_decide (i + k < ahi ∧ j + k < bhi)
                    then (i + k, ahi, j + k, bhi) :: queue1 else queue1 in
      matching_loop a b b2j fuel' queue2 (matching_blocks ++ [(i, j, k)])
  | _, _ => matching_blocks
  end.

(** Tuple order, for [matching_blocks.sort()]. *)
Definition block_le (x y : block) : Prop :=
  x.1.1 < y.1.1 ∨ x.1.1 = y.1.1 ∧ (x.1.2 < y.1.2 ∨ x.1.2 = y.1.2 ∧ x.2 ≤ y.2).

#[global] Instance block_le_dec x y : Decision (block_le x y).
Proof. unfold block_le. apply _. Defined.

(** The loop collapsing adjacent equal blocks. *)
Fixpoint collapse (cur : block) (blocks non_adjacent : list block)
    : block * list block :=
  match blocks with
  | [] => (cur, non_adjacent)
  | (i2, j2, k2) :: rest =>
    let '(i1, j1, k1) := cur in
    if bool_decide (i1 + k1 = i2 ∧ j1 + k1 = j2)
    then collapse (i1, j1, k1 + k2) rest non_adjacent
    else collapse (i2, j2, k2) rest
           (if bool_decide (k1 = 0) then non_adjacent
            else non_adjacent ++ [(i1, j1, k1)])
  end.

Definition get_matching_blocks (a b : str) : list block :=
  let la := length a in
  let lb := length b in
  let matching_blocks :=
    matching_loop a b (chain_b b) (la + lb + 1) [(0, la, 0, lb)] [] in
  let '((i1, j1, k1), non_adjacent) :=
    collapse (0, 0, 0) (merge_sort block_le matching_blocks) [] in
  let non_adjacent := if bool_decide (k1 = 0) then non_adjacent
                      else non_adjacent ++ [(i1, j1, k1)] in
  non_adjacent ++ [(la, lb, 0)].

(** [_calculate_ratio]: [2.0 * matches / length], or [1.0] when [length]
    is [0]. *)
Definition calculate_ratio (matches length : nat) : Q :=
  match length with
  | 0 => 1%Q
  | _ => Qred (Z.of_nat (2 * matches) # Pos.of_nat length)
  end.

Definition ratio (a b : str) : Q :=
  let matches := foldr (λ (x : block) acc, x.2 + acc) 0 (get_matching_blocks a b) in
  calculate_ratio matches (length a + length b).

End difflib.


(** ** Constants of the program *)

Definition nl : str := [10%N].

Definition SYSTEM_PROMPT : str :=
  Eval vm_compute in
    py "Ты — ассистент СКК. Отвечай кратко. Если информации нет, скажи об этом.".
Definition DEFAULT_RESPONSE : str :=
  Eval vm_compute in py "Извините, я не нашел ответа на ваш вопрос.".
Definition MODEL_NAME : str := Eval vm_compute in py "gpt-3.5-turbo".
Definition TEMPERATURE : Q := 3 # 10.
Definition MAX_TOKENS : nat := 150.
Definition FREQUENCY_PENALTY : Q := 5 # 10.
Definition SIMILARITY_GOOD : Q := 6 # 10.
Definition SIMILARITY_PARTIAL : Q := 4 # 10.
(** The literal [0.95] of the early exit in the matcher. *)
Definition SIMILARITY_EXIT : Q := 95 # 100.
Definition CACHE_SIZE : nat := 256.

(** The literal answers and phrases. *)
Definition ASK_PROMPT : str := Eval vm_compute in py "Пожалуйста, задайте вопрос.".
Definition HEDGE : str :=
  Eval vm_compute in py "Возможно, это подходящий ответ:" ++ nl ++ nl.
Definition GREETINGS : list str :=
  Eval vm_compute in [py "спасибо"; py "привет"; py "здравствуйте"].
Definition ROLE_SYSTEM : str := Eval vm_compute in py "system".
Definition ROLE_USER : str := Eval vm_compute in py "user".
Definition KNOWLEDGE_TXT : str := Eval vm_compute in py "knowledge.txt".
Definition KNOWLEDGE1_TXT : str := Eval vm_compute in py "knowledge1.txt".

(** [x < y] and [x >= y] on scores, as booleans. *)
Definition Qltb (x y : Q) : bool := negb (Qle_bool y x).
Definition Qgeb (x y : Q) : bool := Qle_bool y x.

(** ** The world the program runs in *)

Inductive exception : Set :=
  | FileNotFoundError
  | PermissionError
  | IsADirectoryError
  | NotADirectoryError
  | OSError (errno : nat)    (* an [OSError] of no subclass, by its [errno] *)
  | ValueError               (* [open]: embedded null character *)
  | UnicodeDecodeError
  | APIConnectionError
  | AuthenticationError
  | MalformedResponse        (* KeyError, IndexError or TypeError on the reply *)
  | OtherException (tag : nat).

#[global] Instance exception_eq_dec : EqDecision exception.
Proof. solve_decision. Defined.

Inductive result (A : Type) : Type :=
  | Ok (a : A)
  | Raise (e : exception).
Arguments Ok {A} a.
Arguments Raise {A} e.

(** What [open(path, 'r', encoding='utf-8')] and a later iteration over
    the lines find at a path. *)
Inductive file : Type :=
  | NoFile                     (* [open] raises [FileNotFoundError] *)
  | Unreadable (e : exception) (* [open] raises [e], whatever it is:
                                  [IsADirectoryError], [PermissionError],
                                  [NotADirectoryError], another [OSError],
                                  [ValueError], ... *)
  | Lines (ls : list str)      (* iteration yields these lines *)
  | BadEncoding.               (* iteration raises [UnicodeDecodeError] *)

(** The keyword arguments of [openai.ChatCompletion.create]; a message
    [{"role": r, "content": c}] is the pair [(r, c)]. *)
Record request : Type := {
  model : str;
  messages : list (str * str);
  temperature : Q;
  max_tokens : nat;
  frequency_penalty : Q
}.

(** The outcome of the call: [response.choices[0].message['content']], or
    any exception raised on the way to it. *)
Inductive reply : Type :=
  | Completion (content : str)
  | Failure (e : exception).

Inductive event : Type :=
  | Opened (path : str)        (* a call of [open] *)
  | Requested (r : request).   (* a call of the completion service *)

(** An [lru_cache]: the memoised calls, most recently used first. *)
Abbreviation lru K V := (list (K * V)).

Record World : Type := {
  files : str -> file;
  service : request -> reply;
  qa_cache : lru (str * str) (list (str * str));
  api_cache : lru (list (str * str)) str;
  trace : list event
}.

Definition set_files (f : str -> file) (w : World) : World :=
  {| files := f; service := service w; qa_cache := qa_cache w;
     api_cache := api_cache w; trace := trace w |}.
Definition set_service (s : request -> reply) (w : World) : World :=
  {| files := files w; service := s; qa_cache := qa_cache w;
     api_cache := api_cache w; trace := trace w |}.
Definition set_qa_cache (c : lru (str * str) (list (str * str))) (w : World) : World :=
  {| files := files w; service := service w; qa_cache := c;
     api_cache := api_cache w; trace := trace w |}.
Definition set_api_cache (c : lru (list (str * str)) str) (w : World) : World :=
  {| files := files w; service := service w; qa_cache := qa_cache w;
     api_cache := c; trace := trace w |}.
Definition log (e : event) (w : World) : World :=
  {| files := files w; service := service w; qa_cache := qa_cache w;
     api_cache := api_cache w; trace := trace w ++ [e] |}.

(** Computations that read and change the world and may raise. *)
Definition M (A : Type) : Type := World -> result A * World.

Definition ret {A} (a : A) : M A := fun w => (Ok a, w).
Definition raise {A} (e : exception) : M A := fun w => (Raise e, w).
Definition bind {A B} (m : M A) (k : A -> M B) : M B :=
  fun w => match m w with
           | (Ok a, w') => k a w'
           | (Raise e, w') => (Raise e, w')
           end.
(** [try: m  except <handled>: h] *)
Definition try_except {A} (m : M A) (handled : exception -> bool) (h : M A) : M A :=
  fun w => match m w with
           | (Raise e, w') => if handled e then h w' else (Raise e, w')
           | r => r
           end.

Declare Scope py_scope.
Delimit Scope py_scope with py.
Notation "'do' x <- m ; k" := (bind m (fun x => k))
  (at level 10, x name, m at level 100, k at level 200) : py_scope.

(** [functools.lru_cache(maxsize)]: a hit returns the memoised value and
    makes the entry the most recent; a miss runs the function, memoises a
    returned value (never a raised exception) and evicts the least
    recently used entry beyond [maxsize]. *)
Fixpoint lru_get {K V} `{EqDecision K} (k : K) (c : lru K V) : option V :=
  match c with
  | [] => None
  | (k', v) :: c' => if decide (k = k') then Some v else lru_get k c'
  end.

Fixpoint lru_del {K V} `{EqDecision K} (k : K) (c : lru K V) : lru K V :=
  match c with
  | [] => []
  | (k', v) :: c' => if decide (k = k') then c' else (k', v) :: lru_del k c'
  end.

Definition lru_cache {K V} `{EqDecision K} (maxsize : nat)
    (get : World -> lru K V) (set : lru K V -> World -> World)
    (f : K -> M V) : K -> M V :=
  fun k w =>
    match lru_get k (get w) with
    | Some v => (Ok v, set ((k, v) :: lru_del k (get w)) w)
    | None =>
      match f k w with
      | (Ok v, w') => (Ok v, set (take maxsize ((k, v) :: get w')) w')
      | (Raise e, w') => (Raise e, w')
      end
    end.

(** [open(path, 'r', encoding='utf-8')] and the iteration over an open
    file. *)
Definition open (path : str) : M file :=
  fun w => let w' := log (Opened path) w in
           match files w path with
           | NoFile => (Raise FileNotFoundError, w')
           | Unreadable e => (Raise e, w')
           | f => (Ok f, w')
           end.

Definition read_lines (f : file) : M (list str) :=
  match f with
  | Lines ls => ret ls
  | _ => raise UnicodeDecodeError
  end.

(** Tables for running the program on text in ASCII, the Cyrillic block
    U+0400..U+045F and the dotted capital I (U+0130, whose lower case is
    two code points), where they agree with [str.isdigit] and
    [str.lower]. *)
Definition isdigit_basic (c : N) : bool := ((48 <=? c) && (c <=? 57))%N.
Definition lower_basic_char (c : N) : str :=
  if ((65 <=? c) && (c <=? 90))%N then [(c + 32)%N]
  else if ((1024 <=? c) && (c <=? 1039))%N then [(c + 80)%N]
  else if ((1040 <=? c) && (c <=? 1071))%N then [(c + 32)%N]
  else if (c =? 304)%N then [105%N; 775%N]
  else [c].
Definition lower_basic (s : str) : str := s ≫= lower_basic_char.

(** ** Worlds for running the program

    A knowledge base in two files, with blank lines and one question more
    than there are answers; a second pair of files where a near duplicate
    of a question precedes it; a directory in place of a questions file. *)
Definition QUESTIONS_TXT : str := Eval vm_compute in py "questions.txt".
Definition ANSWERS_TXT : str := Eval vm_compute in py "answers.txt".
Definition DUP_QUESTIONS_TXT : str := Eval vm_compute in py "dup_questions.txt".
Definition DUP_ANSWERS_TXT : str := Eval vm_compute in py "dup_answers.txt".
Definition SOME_DIRECTORY : str := Eval vm_compute in py "/".

Definition demo_questions : list str :=
  Eval vm_compute in
    [ py "What are your hours?" ++ nl;
      nl;
      py "How do I reset my password?" ++ nl;
      py "Hi?" ++ nl;
      py "  Where is the office located?  " ++ nl;
      py "Is there parking nearby?" ].
Definition demo_answers : list str :=
  Eval vm_compute in
    [ py "9 to 5." ++ nl;
      py "1. Contact support." ++ nl;
      py "   " ++ nl;
      py "42. Special code" ++ nl;
      py "10. Text" ++ nl ].

Definition demo_files (path : str) : file :=
  if bool_decide (path = QUESTIONS_TXT) then Lines demo_questions
  else if bool_decide (path = ANSWERS_TXT) then Lines demo_answers
  else if bool_decide (path = DUP_QUESTIONS_TXT)
       then Lines [py "What are your hours??" ++ nl; py "What are your hours?" ++ nl]
  else if bool_decide (path = DUP_ANSWERS_TXT)
       then Lines [py "Answer A" ++ nl; py "Answer B" ++ nl]
  else if bool_decide (path = SOME_DIRECTORY) then Unreadable IsADirectoryError
  else NoFile.

Definition no_files (path : str) : file := NoFile.

(** A service that cannot be reached, and one that answers with a
    numbered line. *)
Definition service_down (r : request) : reply := Failure APIConnectionError.
Definition service_up (r : request) : reply :=
  Completion (py "1. We open at ten on weekends.").

Definition world_offline : World :=
  {| files := demo_files; service := service_down;
     qa_cache := []; api_cache := []; trace := [] |}.
Definition world_online : World :=
  {| files := demo_files; service := service_up;
     qa_cache := []; api_cache := []; trace := [] |}.

(** The knowledge base these files yield, the world after it has been
    loaded, and the questions asked below. *)
Definition demo_kb : list (str * str) :=
  Eval vm_compute in
    [ (py "What are your hours?", py "9 to 5.");
      (py "How do I reset my password?", py "Contact support.");
      (py "Hi?", py "Special code");
      (py "Where is the office located?", py "Text") ].
Definition dup_kb : list (str * str) :=
  Eval vm_compute in
    [ (py "What are your hours??", py "Answer A");
      (py "What are your hours?", py "Answer B") ].

Definition world_loaded : World :=
  {| files := demo_files; service := service_down;
     qa_cache := [((QUESTIONS_TXT, ANSWERS_TXT), demo_kb)]; api_cache := [];
     trace := [Opened QUESTIONS_TXT; Opened ANSWERS_TXT] |}.
Definition world_no_files : World :=
  {| files := no_files; service := service_down;
     qa_cache := []; api_cache := []; trace := [] |}.

Definition Q_HOURS : str := Eval vm_compute in py "What are your hours?".
Definition Q_HOURS_PLAIN : str := Eval vm_compute in py "what are your hours".
Definition Q_OFFICE : str := Eval vm_compute in py "Where is the office located?".
Definition Q_WEEKENDS : str := Eval vm_compute in py "When do you open on weekends?".
Definition A_HOURS : str := Eval vm_compute in py "9 to 5.".
Definition A_OFFICE : str := Eval vm_compute in py "Text".

(** ** [hashlib.md5(text.encode('utf-8')).hexdigest()]

    The encoder of Python for UTF-8 (a lone surrogate cannot be encoded)
    and the MD5 digest of RFC 1321 on bytes. *)
Module md5.

Definition mask32 (x : N) : N := (x mod 4294967296)%N.
Definition rotl (x c : N) : N :=
  mask32 (N.lor (N.shiftl x c) (N.shiftr x (32 - c))).
Definition not32 (x : N) : N := N.lxor x 4294967295.

Definition sines : list N :=
  [
    3614090360; 3905402710; 606105819; 3250441966;
    4118548399; 1200080426; 2821735955; 4249261313;
    1770035416; 2336552879; 4294925233; 2304563134;
    1804603682; 4254626195; 2792965006; 1236535329;
    4129170786; 3225465664; 643717713; 3921069994;
    3593408605; 38016083; 3634488961; 3889429448;
    568446438; 3275163606; 4107603335; 1163531501;
    2850285829; 4243563512; 1735328473; 2368359562;
    4294588738; 2272392833; 1839030562; 4259657740;
    2763975236; 1272893353; 4139469664; 3200236656;
    681279174; 3936430074; 3572445317; 76029189;
    3654602809; 3873151461; 530742520; 3299628645;
    4096336452; 1126891415; 2878612391; 4237533241;
    1700485571; 2399980690; 4293915773; 2240044497;
    1873313359; 4264355552; 2734768916; 1309151649;
    4149444226; 3174756917; 718787259; 3951481745 ]%N.
Definition shifts : list N :=
  [
    7; 12; 17; 22; 7; 12; 17; 22; 7; 12; 17; 22; 7; 12; 17; 22;
    5; 9; 14; 20; 5; 9; 14; 20; 5; 9; 14; 20; 5; 9; 14; 20;
    4; 11; 16; 23; 4; 11; 16; 23; 4; 11; 16; 23; 4; 11; 16; 23;
    6; 10; 15; 21; 6; 10; 15; 21; 6; 10; 15; 21; 6; 10; 15; 21 ]%N.

(** The least significant [n] bytes of [x], lowest first. *)
Fixpoint le_bytes (n : nat) (x : N) : list N :=
  match n with
  | 0 => []
  | S n' => (x mod 256)%N :: le_bytes n' (x / 256)%N
  end.

(** The number a list of bytes spells, lowest byte first. *)
Definition le_word (bs : list N) : N := foldr (λ b acc, (b + 256 * acc)%N) 0%N bs.

(** Padding: a byte 0x80, zeros up to 56 modulo 64, the length in bits on
    8 bytes. *)
Definition pad (msg : list N) : list N :=
  let len := length msg in
  let zeros := (119 - len mod 64) mod 64 in
  msg ++ [128%N] ++ replicate zeros 0%N ++ le_bytes 8 (8 * N.of_nat len)%N.

(** The 16 words of a block of 64 bytes. *)
Definition block_words (block : list N) : list N :=
  (λ i, le_word (take 4 (drop (4 * i) block))) <$> seq 0 16.

(** One of the 64 steps on the state [(a, b, c, d)]. *)
Definition step (m : list N) (st : N * N * N * N) (i : nat) : N * N * N * N :=
  let '(a, b, c, d) := st in
  let '(f, g) :=
    if bool_decide (i < 16) then (N.lor (N.land b c) (N.land (not32 b) d), i)
    else if bool_decide (i < 32)
         then (N.lor (N.land d b) (N.land (not32 d) c), (5 * i + 1) mod 16)
    else if bool_decide (i < 48) then (N.lxor (N.lxor b c) d, (3 * i + 5) mod 16)
    else (N.lxor c (N.lor b (not32 d)), (7 * i) mod 16) in
  let f := mask32 (f + a + default 0%N (sines !! i) + default 0%N (m !! g)) in
  (d, mask32 (b + rotl f (default 0%N (shifts !! i))), b, c).

(** The state after one block. *)
Definition compress (st : N * N * N * N) (block : list N) : N * N * N * N :=
  let '(a0, b0, c0, d0) := st in
  let '(a, b, c, d) := foldl (step (block_words block)) st (seq 0 64) in
  (mask32 (a0 + a), mask32 (b0 + b), mask32 (c0 + c), mask32 (d0 + d)).

(** The blocks of a padded message; [n] bounds their number. *)
Fixpoint blocks (n : nat) (bs : list N) : list (list N) :=
  match n, bs with
  | S n', _ :: _ => take 64 bs :: blocks n' (drop 64 bs)
  | _, _ => []
  end.

Definition digest (msg : list N) : list N :=
  let padded := pad msg in
  let '(a, b, c, d) :=
    foldl compress (1732584193, 4023233417, 2562383102, 271733878)%N
          (blocks (length padded) padded) in
  le_bytes 4 a ++ le_bytes 4 b ++ le_bytes 4 c ++ le_bytes 4 d.

Definition hex_digit (d : N) : N := if (d <? 10)%N then (48 + d)%N else (87 + d)%N.
Definition hexdigest (bs : list N) : str :=
  bs ≫= λ b, [hex_digit (b / 16); hex_digit (b mod 16)]%N.

End md5.

(** [str.encode('utf-8')] on one code point; [None] stands for
    [UnicodeEncodeError] (a surrogate) or for a number that is no code
    point. *)
Definition utf8_encode_char (c : N) : option (list N) :=
  if (c <? 128)%N then Some [c]
  else if (c <? 2048)%N then Some [192 + c / 64; 128 + c mod 64]%N
  else if ((55296 <=? c) && (c <=? 57343))%N then None
  else if (c <? 65536)%N
       then Some [224 + c / 4096; 128 + (c / 64) mod 64; 128 + c mod 64]%N
  else if (c <? 1114112)%N
       then Some [240 + c / 262144; 128 + (c / 4096) mod 64;
                  128 + (c / 64) mod 64; 128 + c mod 64]%N
  else None.

Definition utf8_encode (s : str) : option (list N) :=
  mjoin <$> mapM utf8_encode_char s.

(** [get_text_hash]; [None] when the encoding raises. *)
Definition get_text_hash (text : str) : option str :=
  md5.hexdigest <$> (md5.digest <$> utf8_encode text).

(** The digits of [hexdigest]: [0-9a-f]. *)
Definition hex_lower (c : N) : bool :=
  ((48 <=? c) && (c <=? 57) || (97 <=? c) && (c <=? 102))%N.

(** Code points [str.encode('utf-8')] refuses: the surrogates; and the
    numbers that are no code point. *)
Definition unencodable (c : N) : Prop :=
  (55296 <= c <= 57343 \/ 1114112 <= c)%N.

(** Two spaces, to put around a question. *)
Definition PADDING : str := Eval vm_compute in py "  ".

(** ** The program

    [str.isdigit] and [str.lower] depend on the Unicode tables of the
    interpreter; the program is modelled for any such tables. *)
Section Chats.

Variable isdigit : N -> bool.
Variable lower : str -> str.

Local Open Scope py_scope.

(** [clean_response]. The index [[1]] cannot fail under the guard (lemma
    [clean_response_no_IndexError]); the model returns [answer] there. *)
Definition clean_response (answer : str) : str :=
  match answer with
  | [] => answer
  | c :: _ =>
    if isdigit c && contains dot_space (take 5 answer)
    then default answer (split1 dot_space answer !! 1)
    else answer
  end.

(** [should_process] *)
Definition should_process (question : str) : bool :=
  let question := lower (strip question) in
  bool_decide (3 < length question) && bool_decide (question ∉ GREETINGS).

(** The two comprehensions of [load_qa_pairs]. *)
Definition question_lines (ls : list str) : list str :=
  omap (λ q, if bool_decide (strip q = []) then None else Some (strip q)) ls.
Definition answer_lines (ls : list str) : list str :=
  omap (λ a, if bool_decide (strip a = []) then None
             else Some (clean_response (strip a))) ls.

(** The body of [load_qa_pairs], under its [try]. *)
Definition read_qa_pairs (paths : str * str) : M (list (str * str)) :=
  try_except
    (do f_q <- open paths.1;
     do f_a <- open paths.2;
     do qs <- read_lines f_q;
     let questions := question_lines qs in
     do as_ <- read_lines f_a;
     let answers := answer_lines as_ in
     ret (zip questions answers))
    (λ e, bool_decide (e = FileNotFoundError))
    (ret []).

(** [@lru_cache(maxsize=CACHE_SIZE) def load_qa_pairs] *)
Definition load_qa_pairs (questions_path answers_path : str) : M (list (str * str)) :=
  lru_cache CACHE_SIZE qa_cache set_qa_cache read_qa_pairs
            (questions_path, answers_path).

(** The score of one stored question in [find_best_match_extended]. *)
Definition similarity (user_question question : str) : Q :=
  difflib.ratio (strip (lower user_question)) (strip (lower question)).

(** The loop of [find_best_match_extended], from the current best. *)
Fixpoint scan_pairs (user_question : str) (qa_pairs : list (str * str))
    (best : str * str * Q) : str * str * Q :=
  match qa_pairs with
  | [] => best
  | (question, answer) :: rest =>
    let current_score := similarity user_question question in
    if Qltb best.2 current_score then
      if Qgeb current_score SIMILARITY_EXIT
      then (question, answer, current_score)
      else scan_pairs user_question rest (question, answer, current_score)
    else scan_pairs user_question rest best
  end.

Definition find_best_match_extended (user_question : str)
    (qa_pairs : list (str * str)) : str * str * Q :=
  match qa_pairs with
  | [] => ([], [], 0%Q)
  | _ => scan_pairs user_question qa_pairs ([], [], 0%Q)
  end.

(** The request sent for a tuple of messages. *)
Definition chat_request (msgs : list (str * str)) : request :=
  {| model := MODEL_NAME; messages := msgs; temperature := TEMPERATURE;
     max_tokens := MAX_TOKENS; frequency_penalty := FREQUENCY_PENALTY |}.

(** The body of [get_api_response]: one call of the service; [except
    Exception] turns every failure into [DEFAULT_RESPONSE]. *)
Definition call_api (msgs : list (str * str)) : M str :=
  fun w =>
    let w' := log (Requested (chat_request msgs)) w in
    match service w (chat_request msgs) with
    | Completion content => (Ok (clean_response content), w')
    | Failure _ => (Ok DEFAULT_RESPONSE, w')
    end.

(** [@lru_cache(maxsize=CACHE_SIZE) def get_api_response] *)
Definition get_api_response (msgs : list (str * str)) : M str :=
  lru_cache CACHE_SIZE api_cache set_api_cache call_api msgs.

(** The two messages built for a partial match. *)
Definition partial_messages (user_question matched_question matched_answer : str)
    : list (str * str) :=
  [ (ROLE_SYSTEM, SYSTEM_PROMPT);
    (ROLE_USER,
       py "Вопрос: " ++ user_question ++ nl
       ++ py "Похожий вопрос: " ++ matched_question ++ nl
       ++ py "Ответ на похожий вопрос: " ++ matched_answer ++ nl ++ nl
       ++ py "Дайте краткий ответ на первый вопрос, используя второй ответ как контекст.") ].

Definition generate_smart_response (user_question matched_question
    matched_answer : str) (similarity_score : Q) : M str :=
  if Qgeb similarity_score SIMILARITY_GOOD then ret matched_answer
  else if Qgeb similarity_score SIMILARITY_PARTIAL then
    do response <- get_api_response
                     (partial_messages user_question matched_question matched_answer);
    ret (HEDGE ++ response)
  else ret DEFAULT_RESPONSE.

Definition ask_assistant (user_question questions_file answers_file : str) : M str :=
  if bool_decide (strip user_question = []) then ret ASK_PROMPT
  else if negb (should_process user_question) then ret DEFAULT_RESPONSE
  else
    do qa_pairs <- load_qa_pairs questions_file answers_file;
    let '(matched_question, matched_answer, similarity_score) :=
      find_best_match_extended user_question qa_pairs in
    if bool_decide (matched_answer = []) then ret DEFAULT_RESPONSE
    else generate_smart_response user_question matched_question matched_answer
                                 similarity_score.

(** [ask_assistant(user_question)] with the default file names. *)
Definition ask_assistant_default (user_question : str) : M str :=
  ask_assistant user_question KNOWLEDGE_TXT KNOWLEDGE1_TXT.

(** What [get_api_response] computes when it calls the service. *)
Definition api_answer (w : World) (msgs : list (str * str)) : str :=
  match service w (chat_request msgs) with
  | Completion content => clean_response content
  | Failure _ => DEFAULT_RESPONSE
  end.

(** The lines a file contributes, in the words of the specification:
    trimmed, and kept when not empty. *)
Definition retained (ls : list str) : list str :=
  filter (λ l : str, l <> []) (strip <$> ls).

(** Notions for reasoning about a sequence matched against itself: a
    position is [kept] when its element survives in [b2j] (is not
    popular), and [run b j] counts the kept positions ending at [j]
    without interruption. *)
Definition kept (b : str) (j : nat) : bool :=
  bool_decide (is_Some (b !! j ≫= λ c, difflib.chain_b b !! c)).

Fixpoint run (b : str) (j : nat) : nat :=
  if kept b j then match j with 0 => 1 | S j' => S (run b j') end else 0.

Definition run_before (b : str) (j : nat) : nat :=
  match j with 0 => 0 | S j' => run b j' end.

(** What [j2len] holds before row [i] of a self-match: no entry exceeds
    the run ending at its position or the run ending on the previous row,
    and the entry of the diagonal is that run. *)
Definition self_rows_inv (b : str) (i : nat) (j2len : gmap nat nat) : Prop :=
  (forall j k, j2len !! j = Some k -> k <= run b j /\ k <= run_before b i) /\
  difflib.j2lenget_pred j2len i = run_before b i.

(** What [best] is before row [i] of a self-match: a block on the
    diagonal, inside the rows seen, at least as long as every run seen. *)
Definition self_best_inv (b : str) (i : nat) (best : difflib.block) : Prop :=
  best.1.1 = best.1.2 /\ best.1.1 + best.2 <= i /\
  forall j, j < i -> run b j <= best.2.

(** One iteration of the inner loop of [find_longest_match] when the
    position lies inside the window. *)
Definition row_step (j2len : gmap nat nat) (i : nat)
    (st : gmap nat nat * difflib.block) (j : nat) : gmap nat nat * difflib.block :=
  let k := difflib.j2lenget_pred j2len j + 1 in
  (<[j := k]> st.1,
   if bool_decide (st.2.2 < k) then (i + 1 - k, j + 1 - k, k) else st.2).

(** A block inside a window, a well-formed window, and the number of
    iterations of the work-list loop a queue of windows can still need. *)
Definition block_inside (alo ahi blo bhi : nat) (x : difflib.block) : Prop :=
  alo <= x.1.1 /\ x.1.1 + x.2 <= ahi /\ blo <= x.1.2 /\ x.1.2 + x.2 <= bhi.

Definition window_ok (q : nat * nat * nat * nat) : Prop :=
  q.1.1.1 <= q.1.1.2 /\ q.1.2 <= q.2.

Definition window_cost (q : nat * nat * nat * nat) : nat :=
  2 * ((q.1.1.2 - q.1.1.1) `min` (q.2 - q.1.2)) + 1.

Definition queue_cost (queue : list (nat * nat * nat * nat)) : nat :=
  foldr (λ q acc, window_cost q + acc) 0 queue.

(** ** The remaining functions of the program *)

Definition MAX_CONTEXT_LENGTH : Z := 300.
Definition ELLIPSIS : str := Eval vm_compute in py " [...] ".

(** The slices [s[:k]] and [s[k:]] for any integer [k]: a negative index
    counts from the end, and an index out of range is clipped. *)
Definition slice_to (s : str) (k : Z) : str :=
  if (0 <=? k)%Z then take (Z.to_nat k) s
  else take (length s - Z.to_nat (- k)) s.
Definition slice_from (s : str) (k : Z) : str :=
  if (0 <=? k)%Z then drop (Z.to_nat k) s
  else drop (length s - Z.to_nat (- k)) s.

(** [compress_text]; [//] is the floor division of [Z], and
    [-max_len//2] is [(-max_len)//2]. *)
Definition compress_text (text : str) (max_len : Z) : str :=
  if (Z.of_nat (length text) <=? max_len)%Z then text
  else slice_to text (max_len / 2) ++ ELLIPSIS ++ slice_from text ((- max_len) / 2).

(** [compress_text(text)] with the default limit. *)
Definition compress_text_default (text : str) : str :=
  compress_text text MAX_CONTEXT_LENGTH.

(** What [input] finds on the terminal: a line (without its newline), an
    interrupt, or the end of the input. *)
Inductive stdin_event : Type :=
  | Typed (line : str)
  | KeyboardInterrupt
  | EOFError.

(** What [main] prints. *)
Inductive output : Type :=
  | Banner                       (* the title line *)
  | Prompt                       (* the prompt of [input] *)
  | Answer (answer : str)        (* [print("\nОтвет:", answer)] *)
  | Shutdown                     (* the message printed on an interrupt *)
  | ErrorEOF                     (* [print(f"\nОшибка: ...")] for [EOFError] *)
  | ErrorRaised (e : exception). (* the same for an exception of [ask_assistant] *)

#[global] Instance stdin_event_eq_dec : EqDecision stdin_event.
Proof. solve_decision. Defined.
#[global] Instance output_eq_dec : EqDecision output.
Proof. solve_decision. Defined.

(** The [while True] loop of [main] over the events [input] will find:
    the output so far, the world, and whether the loop is still running
    (waiting for more input) or has left through [break]. *)
Fixpoint main_loop (inputs : list stdin_event) (out : list output) (w : World)
    : list output * World * bool :=
  match inputs with
  | [] => (out, w, true)
  | ev :: rest =>
    let out := out ++ [Prompt] in
    match ev with
    | KeyboardInterrupt => (out ++ [Shutdown], w, false)
    | EOFError => main_loop rest (out ++ [ErrorEOF]) w
    | Typed line =>
      let question := strip line in
      if bool_decide (question = []) then main_loop rest out w
      else
        match ask_assistant_default question w with
        | (Ok answer, w') => main_loop rest (out ++ [Answer answer]) w'
        | (Raise e, w') => main_loop rest (out ++ [ErrorRaised e]) w'
        end
    end
  end.

Definition main (inputs : list stdin_event) (w : World) : list output * World * bool :=
  main_loop inputs [Banner] w.

(** The sum of the sizes of a list of blocks, and what a queue of windows
    can still contribute to it. *)
Definition blocks_sum (l : list difflib.block) : nat :=
  foldr (λ (x : difflib.block) acc, x.2 + acc) 0 l.
Definition window_cap (q : nat * nat * nat * nat) : nat :=
  (q.1.1.2 - q.1.1.1) `min` (q.2 - q.1.2).
Definition queue_cap (queue : list (nat * nat * nat * nat)) : nat :=
  foldr (λ q acc, window_cap q + acc) 0 queue.

(** A memo within its capacity and with one entry per key. *)
Definition memo_ok {K V} (c : lru K V) : Prop :=
  length c <= CACHE_SIZE /\ NoDup c.*1.

(** A typed line that is empty once trimmed, and what [main] prints
    apart from its prompts. *)
Definition blank_line (ev : stdin_event) : bool :=
  match ev with
  | Typed line => bool_decide (strip line = [])
  | _ => false
  end.
Definition spoken (out : list output) : list output :=
  filter (λ o, o <> Prompt) out.

(** Where an exception of the loader comes from: [open] raised it for
    one of the two paths, or it is the [UnicodeDecodeError] of reading a
    file that is not UTF-8. *)
Definition read_error (fs : str -> file) (qp ap : str) (e : exception) : Prop :=
  fs qp = Unreadable e \/ fs ap = Unreadable e \/
  (e = UnicodeDecodeError /\ (fs qp = BadEncoding \/ fs ap = BadEncoding)).



(** A world where every path is a directory. *)
Definition world_directories : World :=
  {| files := λ _, Unreadable IsADirectoryError; service := service_down;
     qa_cache := []; api_cache := []; trace := [] |}.

(** A world whose loader memo is full (256 pairs of one-letter paths),
    a world where the default file names hold the knowledge base of the
    examples, and a session at the terminal. *)
Definition full_memo : lru (str * str) (list (str * str)) :=
  (λ i : nat, (([N.of_nat i], []), [])) <$> seq 0 256.
Definition world_full_memo : World :=
  {| files := demo_files; service := service_down;
     qa_cache := full_memo; api_cache := []; trace := [] |}.

Definition default_files (path : str) : file :=
  if bool_decide (path = KNOWLEDGE_TXT) then Lines demo_questions
  else if bool_decide (path = KNOWLEDGE1_TXT) then Lines demo_answers
  else NoFile.
Definition world_session : World :=
  {| files := default_files; service := service_down;
     qa_cache := []; api_cache := []; trace := [] |}.

Definition session_start : list stdin_event :=
  [Typed (Q_HOURS_PLAIN ++ [32%N]); Typed [32%N; 32%N]; EOFError].
Definition session : list stdin_event :=
  session_start ++ KeyboardInterrupt :: [Typed Q_OFFICE].

Definition LONG_TEXT : str := Eval vm_compute in py "abcdefghijklmnopqrstuvwxyz".

(** ** Facts about the text operations *)

Lemma startswith_prefix (p s : str) : startswith p s = true <-> p `prefix_of` s.
Proof.
  revert s; induction p as [|x p IH]; intros [|y s]; simpl.
  - split; [intros _; apply prefix_nil | done].
  - split; [intros _; apply prefix_nil | done].
  - split; [done | intros H; by apply prefix_nil_inv in H].
  - rewrite andb_true_iff, N.eqb_eq, IH. split.
    + intros [-> H]. by apply prefix_cons.
    + intros H. split; [by apply prefix_cons_inv_1 in H | by apply prefix_cons_inv_2 in H].
Qed.

Lemma startswith_length (p s : str) : startswith p s = true -> length p <= length s.
Proof. rewrite startswith_prefix. apply prefix_length. Qed.

Lemma startswith_take (p s : str) (n : nat) :
  length p <= n -> startswith p (take n s) = startswith p s.
Proof.
  intros Hn. apply eq_true_iff_eq. rewrite !startswith_prefix. split.
  - intros H. etrans; [exact H | apply prefix_take].
  - intros [k ->]. rewrite take_app_ge by done. by apply prefix_app_r.
Qed.

Lemma find_Some_length (sep s : str) (i : nat) :
  find sep s = Some i -> i + length sep <= length s.
Proof.
  revert i; induction s as [|c s IH]; intros i; simpl.
  - destruct (startswith sep []) eqn:E; [|done]. intros [= <-].
    apply startswith_length in E. simpl in *. lia.
  - destruct (startswith sep (c :: s)) eqn:E.
    + intros [= <-]. apply startswith_length in E. simpl in *. lia.
    + destruct (find sep s) as [i'|] eqn:F; simpl; [|done].
      intros [= <-]. specialize (IH _ eq_refl). lia.
Qed.

Lemma find_Some_split (sep s : str) (i : nat) :
  find sep s = Some i -> s = take i s ++ sep ++ drop (i + length sep) s.
Proof.
  revert i; induction s as [|c s IH]; intros i; simpl.
  - destruct (startswith sep []) eqn:E; [|done]. intros [= <-].
    apply startswith_prefix in E as [k E]. simpl.
    destruct sep; [done | discriminate].
  - destruct (startswith sep (c :: s)) eqn:E.
    + intros [= <-]. apply startswith_prefix in E as [k E]. simpl.
      rewrite E at 1. f_equal. rewrite E. by rewrite drop_app_length.
    + destruct (find sep s) as [i'|] eqn:F; simpl; [|done].
      intros [= <-]. simpl. f_equal. by apply IH.
Qed.

Lemma find_take (sep s : str) (n i : nat) :
  find sep (take n s) = Some i -> find sep s = Some i.
Proof.
  revert n i; induction s as [|c s IH]; intros n i.
  - by rewrite take_nil.
  - destruct n as [|n].
    + simpl. destruct (startswith sep []) eqn:E; [|done]. intros [= <-].
      destruct sep; [done | discriminate].
    + intros H. pose proof (find_Some_length _ _ _ H) as Hlen.
      rewrite length_take in Hlen. simpl in H |- *.
      destruct (startswith sep (c :: take n s)) eqn:E.
      * injection H as <-.
        change (c :: take n s) with (take (S n) (c :: s)) in E.
        rewrite startswith_take in E by lia. by rewrite E.
      * destruct (find sep (take n s)) as [i'|] eqn:F; simpl in H; [|done].
        injection H as <-.
        change (c :: take n s) with (take (S n) (c :: s)) in E.
        rewrite startswith_take in E by (simpl in Hlen; lia). rewrite E.
        by rewrite (IH _ _ F).
Qed.

(** The first [". "] after a prefix without a dot starts where the prefix
    ends. *)
Lemma find_dot_space_fresh (pre rest : str) :
  46%N ∉ pre -> find dot_space (pre ++ dot_space ++ rest) = Some (length pre).
Proof.
  induction pre as [|c pre IH]; intros Hc; [done|].
  apply not_elem_of_cons in Hc as [Hc Hpre].
  cbn [app find]. unfold dot_space at 1. cbn [startswith].
  destruct (46 =? c)%N eqn:E; [apply N.eqb_eq in E; congruence|].
  cbn [andb]. rewrite IH by done. done.
Qed.

Lemma find_dot_space_lookup (s : str) (i : nat) :
  find dot_space s = Some i -> s !! i = Some 46%N /\ s !! S i = Some 32%N.
Proof.
  intros H. apply find_Some_split in H. rewrite H at 1 2.
  assert (length (take i s) = i) as Hl.
  { rewrite length_take. apply Nat.min_l.
    apply (f_equal length) in H. rewrite !length_app, length_take in H.
    simpl in H. lia. }
  split.
  - rewrite lookup_app_r by lia. by rewrite Hl, Nat.sub_diag.
  - rewrite lookup_app_r by lia. rewrite Hl.
    by replace (S i - i) with 1 by lia.
Qed.

(** ** [clean_response] *)

Lemma contains_take_find (sep s : str) (n : nat) :
  contains sep (take n s) = true ->
  exists i, find sep s = Some i /\ i + length sep <= n.
Proof.
  unfold contains. rewrite bool_decide_eq_true. intros [i Hi].
  exists i. split; [by eapply find_take|].
  apply find_Some_length in Hi. rewrite length_take in Hi. lia.
Qed.

(** Under the guard of [clean_response] the split has two parts: the
    index [[1]] never raises. *)
Lemma clean_response_no_IndexError (answer : str) :
  contains dot_space (take 5 answer) = true ->
  is_Some (split1 dot_space answer !! 1).
Proof.
  intros H. apply contains_take_find in H as (i & Hi & _).
  unfold split1. rewrite Hi. by eexists.
Qed.

(** When the guard holds, the result is what follows the first [". "],
    which starts at index 3 at most. *)
Lemma clean_response_strips (answer : str) (c : N) :
  head answer = Some c -> isdigit c = true ->
  contains dot_space (take 5 answer) = true ->
  exists pre rest,
    answer = pre ++ dot_space ++ rest /\
    find dot_space answer = Some (length pre) /\
    length pre <= 3 /\
    clean_response answer = rest.
Proof.
  intros Hc Hd Hin. destruct answer as [|c' answer']; [done|].
  injection Hc as ->. unfold clean_response. rewrite Hd, Hin. cbn [andb].
  apply contains_take_find in Hin as (i & Hi & Hle).
  unfold split1. rewrite Hi. cbn [lookup list_lookup default].
  set (a := c :: answer') in *.
  pose proof (find_Some_length _ _ _ Hi) as Hlen.
  assert (length (take i a) = i) as Hl by (rewrite length_take; lia).
  exists (take i a), (drop (i + length dot_space) a).
  rewrite Hl. split; [by apply find_Some_split|].
  split; [done|]. split; [simpl in Hle; lia | done].
Qed.

(** When the guard fails, the answer is returned as it is. *)
Lemma clean_response_keeps (answer : str) :
  (forall c, head answer = Some c -> isdigit c = true ->
             contains dot_space (take 5 answer) = false) ->
  clean_response answer = answer.
Proof.
  intros H. destruct answer as [|c answer']; [done|].
  unfold clean_response. destruct (isdigit c) eqn:Hd; [|done].
  by rewrite (H c eq_refl Hd).
Qed.

(** A prefix without a dot that begins with a digit, followed by [". "]:
    stripped when the prefix has at most three characters, kept when it
    has four or more. *)
Lemma clean_response_numbered (pre rest : str) (c : N) :
  head pre = Some c -> isdigit c = true -> 46%N ∉ pre ->
  clean_response (pre ++ dot_space ++ rest) =
    if bool_decide (length pre <= 3) then rest else pre ++ dot_space ++ rest.
Proof.
  intros Hc Hd Hdot.
  pose proof (find_dot_space_fresh pre rest Hdot) as Hfind.
  assert (head (pre ++ dot_space ++ rest) = Some c) as Hhead
    by (destruct pre; [done | exact Hc]).
  case_bool_decide as Hlen.
  - assert (contains dot_space (take 5 (pre ++ dot_space ++ rest)) = true) as Hin.
    { unfold contains. rewrite bool_decide_eq_true.
      exists (length pre).
      rewrite take_app_ge by lia.
      rewrite take_app_ge by (simpl; lia).
      by apply find_dot_space_fresh. }
    destruct (clean_response_strips _ c Hhead Hd Hin) as (pre' & rest' & Heq & Hf & _ & ->).
    rewrite Hfind in Hf. injection Hf as Hl.
    apply app_inj_1 in Heq as [_ Heq]; [|done].
    by apply app_inv_head in Heq.
  - apply clean_response_keeps. intros c' _ _.
    destruct (contains dot_space (take 5 (pre ++ dot_space ++ rest))) eqn:Hin; [|done].
    apply contains_take_find in Hin as (i & Hi & Hle).
    rewrite Hfind in Hi. injection Hi as <-. simpl in Hle. lia.
Qed.

(** ** [difflib]: a sequence matched against itself *)

Lemma index_b_snoc (b : str) (x : N) :
  difflib.index_b (b ++ [x]) =
    <[x := default [] (difflib.index_b b !! x) ++ [length b]]> (difflib.index_b b).
Proof.
  unfold difflib.index_b. rewrite imap_app, foldl_app. simpl.
  by rewrite Nat.add_0_r.
Qed.

Lemma index_b_None (b : str) (c : N) :
  difflib.index_b b !! c = None -> c ∉ b.
Proof.
  induction b as [|x b IH] using rev_ind.
  - intros _. apply not_elem_of_nil.
  - rewrite index_b_snoc. rewrite lookup_insert_None. intros [Hc Hne].
    rewrite not_elem_of_app, list_elem_of_singleton. split; [by apply IH | done].
Qed.

(** The positions recorded for an element are exactly its occurrences, in
    increasing order. *)
Lemma index_b_lookup (b : str) (c : N) (idxs : list nat) :
  difflib.index_b b !! c = Some idxs ->
  (forall j, j ∈ idxs <-> b !! j = Some c) /\
  (forall p1 p2 j1 j2, idxs !! p1 = Some j1 -> idxs !! p2 = Some j2 ->
                       p1 < p2 -> j1 < j2).
Proof.
  revert idxs. induction b as [|x b IH] using rev_ind; intros idxs.
  - unfold difflib.index_b. simpl. by rewrite lookup_empty.
  - rewrite index_b_snoc. rewrite lookup_insert.
    destruct (decide (x = c)) as [->|Hne].
    + intros [= <-].
      destruct (difflib.index_b b !! c) as [old|] eqn:Hold; simpl.
      * destruct (IH old eq_refl) as [Hmem Hsort]. split.
        -- intros j. rewrite elem_of_app, list_elem_of_singleton, Hmem. split.
           ++ intros [Hj | ->].
              ** rewrite lookup_app_l; [done|]. by eapply lookup_lt_Some.
              ** by rewrite list_lookup_middle.
           ++ intros Hj. destruct (decide (j < length b)) as [Hlt|Hge].
              ** left. by rewrite lookup_app_l in Hj.
              ** right. apply lookup_lt_Some in Hj.
                 rewrite length_app in Hj. simpl in Hj. lia.
        -- intros p1 p2 j1 j2 H1 H2 Hlt.
           assert (forall p j, old !! p = Some j -> j < length b) as Hbound.
           { intros p j Hp. apply list_elem_of_lookup_2 in Hp.
             apply Hmem in Hp. by eapply lookup_lt_Some. }
           destruct (decide (p2 < length old)) as [Hp2|Hp2].
           ++ rewrite lookup_app_l in H1 by lia.
              rewrite lookup_app_l in H2 by lia. eauto.
           ++ rewrite lookup_app_r in H2 by lia.
              destruct (p2 - length old) as [|?] eqn:E; [|done].
              injection H2 as <-.
              rewrite lookup_app_l in H1 by lia. eauto.
      * split.
        -- intros j. rewrite list_elem_of_singleton. split.
           ++ intros ->. by rewrite list_lookup_middle.
           ++ intros Hj. destruct (decide (j < length b)) as [Hlt|Hge].
              ** rewrite lookup_app_l in Hj by done. exfalso.
                 apply index_b_None in Hold. apply Hold.
                 by eapply list_elem_of_lookup_2.
              ** apply lookup_lt_Some in Hj.
                 rewrite length_app in Hj. simpl in Hj. lia.
        -- intros [|p1] [|p2] j1 j2 H1 H2 Hlt; try done; lia.
    + intros Hc. destruct (IH idxs Hc) as [Hmem Hsort]. split; [|done].
      intros j. rewrite Hmem. split.
      * intros Hj. rewrite lookup_app_l; [done|]. by eapply lookup_lt_Some.
      * intros Hj. destruct (decide (j < length b)) as [Hlt|Hge].
        -- by rewrite lookup_app_l in Hj.
        -- rewrite lookup_app_r in Hj by lia.
           destruct (j - length b) as [|?]; [|done]. by injection Hj as ->.
Qed.

Lemma chain_b_index_b (b : str) (c : N) (idxs : list nat) :
  difflib.chain_b b !! c = Some idxs -> difflib.index_b b !! c = Some idxs.
Proof.
  unfold difflib.chain_b. case_bool_decide as Hn; [|done].
  intros H. by apply map_lookup_filter_Some in H as [H _].
Qed.

Lemma kept_lookup (b : str) (j : nat) (c : N) (idxs : list nat) :
  b !! j = Some c -> difflib.chain_b b !! c = Some idxs -> kept b j = true.
Proof.
  intros Hj Hc. unfold kept. rewrite Hj. simpl. rewrite Hc.
  apply bool_decide_eq_true. by eexists.
Qed.

Lemma run_unfold (b : str) (j : nat) :
  run b j = if kept b j then S (run_before b j) else 0.
Proof. destruct j; reflexivity. Qed.

Lemma run_le (b : str) (j : nat) : run b j <= S j.
Proof.
  induction j as [|j IH]; simpl; destruct (kept b _); lia.
Qed.

Lemma scan_row_foldl (j2len : gmap nat nat) (i bhi : nat) (idxs : list nat)
    (acc : gmap nat nat) (best : difflib.block) :
  (forall j, j ∈ idxs -> j < bhi) ->
  difflib.scan_row j2len i 0 bhi idxs acc best
    = foldl (row_step j2len i) (acc, best) idxs.
Proof.
  revert acc best. induction idxs as [|j idxs IH]; intros acc best H; [done|].
  cbn [difflib.scan_row foldl].
  rewrite bool_decide_eq_false_2 by lia.
  rewrite bool_decide_eq_false_2
    by (pose proof (H j (list_elem_of_here _ _)); lia).
  rewrite IH by (intros j' Hj'; apply H; by apply list_elem_of_further).
  reflexivity.
Qed.

Lemma row_fold_best_unchanged (j2len : gmap nat nat) (i : nat) (l : list nat)
    (st : gmap nat nat * difflib.block) :
  (forall j, j ∈ l -> difflib.j2lenget_pred j2len j + 1 <= st.2.2) ->
  (foldl (row_step j2len i) st l).2 = st.2.
Proof.
  revert st. induction l as [|j l IH]; intros st H; [done|].
  cbn [foldl].
  assert ((row_step j2len i st j).2 = st.2) as Hstep.
  { unfold row_step. cbn [snd].
    rewrite bool_decide_eq_false_2; [done|].
    pose proof (H j (list_elem_of_here _ _)). lia. }
  rewrite IH; [done|]. rewrite Hstep.
  intros j' Hj'. apply H. by apply list_elem_of_further.
Qed.

Lemma row_fold_lookup (j2len : gmap nat nat) (i : nat) (l : list nat)
    (st : gmap nat nat * difflib.block) (j : nat) :
  (foldl (row_step j2len i) st l).1 !! j =
    if decide (j ∈ l) then Some (difflib.j2lenget_pred j2len j + 1) else st.1 !! j.
Proof.
  revert st. induction l as [|x l IH]; intros st.
  - cbn [foldl]. rewrite decide_False; [done | apply not_elem_of_nil].
  - cbn [foldl]. rewrite IH. destruct (decide (j ∈ l)) as [Hl|Hl].
    + rewrite decide_True by (by apply list_elem_of_further). done.
    + unfold row_step. cbn [fst]. rewrite lookup_insert.
      destruct (decide (x = j)) as [->|Hne].
      * rewrite decide_True by apply list_elem_of_here. done.
      * rewrite decide_False; [done|].
        rewrite not_elem_of_cons. split; [congruence | done].
Qed.

Section SelfMatch.

Variable b : str.

Local Abbreviation rows_inv := (self_rows_inv b).
Local Abbreviation best_inv := (self_best_inv b).

Lemma rows_inv_get (i : nat) (j2len : gmap nat nat) (j : nat) :
  rows_inv i j2len ->
  difflib.j2lenget_pred j2len j <= run_before b j /\
  difflib.j2lenget_pred j2len j <= run_before b i.
Proof.
  intros [Ha _]. destruct j as [|j]; simpl; [lia|].
  destruct (j2len !! j) as [k|] eqn:E; simpl; [|lia].
  by apply Ha.
Qed.

Lemma scan_row_self (i : nat) (j2len : gmap nat nat) (best : difflib.block) :
  i < length b -> rows_inv i j2len -> best_inv i best ->
  let idxs := default [] (b !! i ≫= λ c, difflib.chain_b b !! c) in
  let r := difflib.scan_row j2len i 0 (length b) idxs ∅ best in
  rows_inv (S i) r.1 /\ best_inv (S i) r.2.
Proof.
  intros Hi HJ HB. pose proof HJ as [HJa HJb]. destruct HB as (Hdiag & Hin & Hruns).
  destruct (lookup_lt_is_Some_2 b i Hi) as [c Hc]. rewrite Hc. cbn [mbind option_bind].
  destruct (difflib.chain_b b !! c) as [idxs|] eqn:Hidx; cbn [default].
  - (* the element of row [i] is indexed *)
    pose proof (kept_lookup b i c idxs Hc Hidx) as Hkept.
    apply chain_b_index_b in Hidx as Hix.
    destruct (index_b_lookup b c idxs Hix) as [Hmem Hsort].
    assert (forall j, j ∈ idxs -> j < length b /\ run b j = S (run_before b j)) as Hidxs.
    { intros j Hj. apply Hmem in Hj. split; [by eapply lookup_lt_Some|].
      rewrite run_unfold. by rewrite (kept_lookup b j c idxs Hj Hidx). }
    assert (run b i = S (run_before b i)) as Hrun
      by (rewrite run_unfold; by rewrite Hkept).
    rewrite scan_row_foldl by (intros j Hj; by apply Hidxs).
    assert (i ∈ idxs) as Hii by (by apply Hmem).
    destruct (list_elem_of_split _ _ Hii) as (l1 & l2 & Hsplit).
    assert (forall j, j ∈ l1 -> j < i) as Hl1.
    { intros j Hj. apply list_elem_of_lookup_1 in Hj as [p Hp].
      apply (Hsort p (length l1) j i).
      - rewrite Hsplit. rewrite lookup_app_l; [done|]. by eapply lookup_lt_Some.
      - rewrite Hsplit. by rewrite list_lookup_middle.
      - by eapply lookup_lt_Some. }
    split.
    + (* the new row *)
      assert (forall j, (foldl (row_step j2len i) (∅, best) idxs).1 !! j =
                if decide (j ∈ idxs) then Some (difflib.j2lenget_pred j2len j + 1)
                else None) as Hnew.
      { intros j. rewrite row_fold_lookup. cbn [fst]. by rewrite lookup_empty. }
      split.
      * intros j k. rewrite Hnew. destruct (decide (j ∈ idxs)) as [Hj|]; [|done].
        intros [= <-]. destruct (rows_inv_get i j2len j HJ) as [H1 H2].
        destruct (Hidxs j Hj) as [_ Hrj]. simpl. lia.
      * cbn [difflib.j2lenget_pred]. rewrite Hnew, decide_True by done.
        simpl. lia.
    + (* the best block *)
      rewrite Hsplit. cbv [id]. rewrite foldl_app. cbn [foldl].
      set (st1 := foldl (row_step j2len i) (∅, best) l1).
      assert (st1.2 = best) as Hst1.
      { subst st1. rewrite row_fold_best_unchanged; [done|]. cbn [snd].
        intros j Hj. destruct (rows_inv_get i j2len j HJ) as [H1 _].
        assert (j ∈ idxs) as Hj' by (rewrite Hsplit, elem_of_app; by left).
        destruct (Hidxs j Hj') as [_ Hrj].
        pose proof (Hruns j (Hl1 j Hj)). lia. }
      set (st2 := row_step j2len i st1 i).
      assert (run b i <= st2.2.2 /\ best_inv (S i) st2.2) as [Hge Hst2].
      { subst st2. unfold row_step. cbn [snd]. rewrite Hst1, HJb.
        replace (run_before b i + 1) with (run b i) by lia.
        pose proof (run_le b i) as Hle.
        unfold self_best_inv. case_bool_decide as Hlt; cbn [fst snd].
        - split; [lia|]. split; [done|]. split; [lia|].
          intros j Hj. destruct (decide (j = i)) as [->|]; [lia|].
          pose proof (Hruns j). lia.
        - split; [lia|]. split; [done|]. split; [lia|].
          intros j Hj. destruct (decide (j = i)) as [->|]; [lia|].
          apply Hruns. lia. }
      rewrite row_fold_best_unchanged; [done|].
      intros j Hj. destruct (rows_inv_get i j2len j HJ) as [_ H2]. lia.
  - (* the element of row [i] is popular: nothing to look at *)
    cbn [difflib.scan_row fst snd].
    assert (run b i = 0) as Hrun.
    { rewrite run_unfold. unfold kept. rewrite Hc. cbn [mbind option_bind].
      rewrite Hidx. rewrite bool_decide_eq_false_2; [done|]. by intros [? ?]. }
    split.
    + split; [intros j k; by rewrite lookup_empty|].
      cbn [difflib.j2lenget_pred run_before]. by rewrite lookup_empty, Hrun.
    + split; [done|]. split; [lia|].
      intros j Hj. destruct (decide (j = i)) as [->|]; [lia|].
      apply Hruns. lia.
Qed.

Lemma scan_rows_self_inv (m i : nat) (j2len : gmap nat nat) (best : difflib.block) :
  i + m = length b -> rows_inv i j2len -> best_inv i best ->
  best_inv (length b)
    (difflib.scan_rows b (difflib.chain_b b) 0 (length b) (seq i m) j2len best).
Proof.
  revert i j2len best. induction m as [|m IH]; intros i j2len best Hlen HJ HB.
  - cbn [seq difflib.scan_rows]. by replace (length b) with i by lia.
  - cbn [seq difflib.scan_rows].
    destruct (scan_row_self i j2len best ltac:(lia) HJ HB) as [HJ' HB'].
    destruct (difflib.scan_row j2len i 0 (length b)
                (default [] (b !! i ≫= λ c, difflib.chain_b b !! c)) ∅ best)
      as [newj2len best'].
    apply IH; [lia | exact HJ' | exact HB'].
Qed.

(** The main loop of [find_longest_match], run on the whole of a sequence
    against itself, ends with a block on the diagonal. *)
Lemma scan_rows_self :
  exists p s,
    difflib.scan_rows b (difflib.chain_b b) 0 (length b) (seq 0 (length b)) ∅ (0, 0, 0)
      = (p, p, s) /\ p + s <= length b.
Proof.
  destruct (scan_rows_self_inv (length b) 0 ∅ (0, 0, 0)) as (Hd & Hin & _).
  - lia.
  - split; [intros j k; by rewrite lookup_empty | done].
  - split; [done|]. split; [simpl; lia|]. intros j Hj. lia.
  - destruct (difflib.scan_rows _ _ _ _ _ _ _) as [[p q] s].
    cbn [fst snd] in *. subst q. by exists p, s.
Qed.

End SelfMatch.

Lemma isbjunk_false (c : N) : difflib.isbjunk c = false.
Proof. unfold difflib.isbjunk, difflib.bjunk. by apply bool_decide_eq_false_2. Qed.

Lemma extend_left_self (b : str) (p s : nat) :
  p <= length b -> difflib.extend_left b b false 0 0 p p s = (0, 0, p + s).
Proof.
  revert s. induction p as [|p IH]; intros s Hp; [done|].
  cbn [difflib.extend_left].
  destruct (lookup_lt_is_Some_2 b p ltac:(lia)) as [x Hx]. rewrite Hx.
  rewrite !bool_decide_eq_true_2 by lia.
  rewrite isbjunk_false, N.eqb_refl. cbn [andb eqb].
  rewrite IH by lia. f_equal. lia.
Qed.

Lemma extend_right_self (b : str) (s steps : nat) :
  s + steps = length b ->
  difflib.extend_right b b false (length b) (length b) 0 0 s steps = length b.
Proof.
  revert s. induction steps as [|steps IH]; intros s Hs.
  - cbn [difflib.extend_right]. lia.
  - cbn [difflib.extend_right]. rewrite Nat.add_0_l.
    destruct (lookup_lt_is_Some_2 b s ltac:(lia)) as [x Hx]. rewrite Hx.
    rewrite !bool_decide_eq_true_2 by lia.
    rewrite isbjunk_false, N.eqb_refl. cbn [andb eqb].
    apply IH. lia.
Qed.

(** The longest match of a sequence with itself is the whole sequence. *)
Lemma find_longest_match_self (b : str) :
  difflib.find_longest_match b b (difflib.chain_b b) 0 (length b) 0 (length b)
    = (0, 0, length b).
Proof.
  unfold difflib.find_longest_match.
  destruct (scan_rows_self b) as (p & s & Hscan & Hps).
  rewrite Nat.sub_0_r, Hscan.
  rewrite extend_left_self by lia.
  rewrite extend_right_self by lia.
  cbn [difflib.extend_left]. rewrite Nat.add_0_l, Nat.sub_diag.
  reflexivity.
Qed.

Lemma get_matching_blocks_self (b : str) :
  difflib.get_matching_blocks b b =
    if bool_decide (length b = 0) then [(0, 0, 0)]
    else [(0, 0, length b); (length b, length b, 0)].
Proof.
  unfold difflib.get_matching_blocks.
  replace (length b + length b + 1) with (S (length b + length b)) by lia.
  cbn [difflib.matching_loop]. rewrite find_longest_match_self.
  case_bool_decide as Hn.
  - rewrite Hn. destruct (length b + length b); reflexivity.
  - rewrite bool_decide_eq_false_2 by lia.
    rewrite bool_decide_eq_false_2 by lia. cbn [app].
    assert (difflib.matching_loop b b (difflib.chain_b b) (length b + length b) []
              [(0, 0, length b)] = [(0, 0, length b)]) as ->
      by (destruct (length b + length b); reflexivity).
    change (merge_sort difflib.block_le [(0, 0, length b)]) with [(0, 0, length b)].
    cbn [difflib.collapse]. rewrite bool_decide_eq_true_2 by done.
    cbn [difflib.collapse]. rewrite bool_decide_eq_false_2 by lia.
    reflexivity.
Qed.

(** [SequenceMatcher(None, s, s).ratio()] is [1.0]. *)
Lemma ratio_self (s : str) : difflib.ratio s s = 1%Q.
Proof.
  unfold difflib.ratio. rewrite get_matching_blocks_self.
  case_bool_decide as Hn.
  - rewrite Hn. reflexivity.
  - cbn [foldr snd]. unfold difflib.calculate_ratio.
    destruct (length s + length s) as [|m] eqn:E; [lia|].
    rewrite <- E. change 1%Q with (Qred 1). apply Qred_complete.
    unfold Qeq. cbn [Qnum Qden].
    rewrite Pos2Z.inj_mul || idtac.
    replace (Z.pos (Pos.of_nat (length s + length s)))
      with (Z.of_nat (length s + length s)).
    + lia.
    + rewrite <- (Nat2Pos.id (length s + length s)) at 1 by lia.
      by rewrite positive_nat_Z.
Qed.

(** ** [difflib]: the work-list loop has fuel enough *)

Lemma j2lenget_pred_bound (j2len : gmap nat nat) (i alo blo j : nat) :
  alo <= i -> blo <= j ->
  (forall j' k, j2len !! j' = Some k -> k <= i - alo /\ k <= j' + 1 - blo) ->
  difflib.j2lenget_pred j2len j + 1 <= i + 1 - alo /\
  difflib.j2lenget_pred j2len j + 1 <= j + 1 - blo.
Proof.
  intros Hi Hj Hinv. destruct j as [|j]; cbn [difflib.j2lenget_pred]; [lia|].
  destruct (j2len !! j) as [k|] eqn:E; simpl; [|lia].
  destruct (Hinv j k E). lia.
Qed.

Lemma scan_row_bounds (j2len : gmap nat nat) (i alo ahi blo bhi : nat)
    (idxs : list nat) (acc : gmap nat nat) (best : difflib.block) :
  alo <= i -> i < ahi ->
  (forall j k, j2len !! j = Some k -> k <= i - alo /\ k <= j + 1 - blo) ->
  (forall j k, acc !! j = Some k -> k <= S i - alo /\ k <= j + 1 - blo) ->
  block_inside alo ahi blo bhi best ->
  let r := difflib.scan_row j2len i blo bhi idxs acc best in
  (forall j k, r.1 !! j = Some k -> k <= S i - alo /\ k <= j + 1 - blo) /\
  block_inside alo ahi blo bhi r.2.
Proof.
  intros Hlo Hhi Hinv. revert acc best.
  induction idxs as [|j idxs IH]; intros acc best Hacc Hbest; [done|].
  cbn [difflib.scan_row]. case_bool_decide as Hj1; [by apply IH|].
  case_bool_decide as Hj2; [done|].
  destruct (j2lenget_pred_bound j2len i alo blo j Hlo ltac:(lia) Hinv) as [Hk1 Hk2].
  apply IH.
  - intros j' k. rewrite lookup_insert. case_decide as Hjj.
    + intros [= <-]. subst j'. lia.
    + apply Hacc.
  - case_bool_decide; [|done]. unfold block_inside. cbn [fst snd]. lia.
Qed.

Lemma scan_rows_bounds (a : str) (b2j : gmap N (list nat)) (alo ahi blo bhi : nat)
    (m i : nat) (j2len : gmap nat nat) (best : difflib.block) :
  alo <= i -> i + m = ahi ->
  (forall j k, j2len !! j = Some k -> k <= i - alo /\ k <= j + 1 - blo) ->
  block_inside alo ahi blo bhi best ->
  block_inside alo ahi blo bhi (difflib.scan_rows a b2j blo bhi (seq i m) j2len best).
Proof.
  revert i j2len best. induction m as [|m IH]; intros i j2len best Hlo Hm Hinv Hbest;
    [done|].
  cbn [seq difflib.scan_rows].
  destruct (scan_row_bounds j2len i alo ahi blo bhi
              (default [] (a !! i ≫= λ c, b2j !! c)) ∅ best
              Hlo ltac:(lia) Hinv ltac:(intros j k; by rewrite lookup_empty) Hbest)
    as [Hnew Hbest'].
  destruct (difflib.scan_row _ _ _ _ _ _ _) as [newj2len best'].
  apply IH; [lia | lia | | exact Hbest'].
  intros j k Hjk. destruct (Hnew j k Hjk). split; [lia | done].
Qed.

Lemma extend_left_bounds (a b : str) (junk : bool) (alo ahi blo bhi : nat)
    (besti bestj bestsize : nat) :
  block_inside alo ahi blo bhi (besti, bestj, bestsize) ->
  block_inside alo ahi blo bhi
    (difflib.extend_left a b junk alo blo besti bestj bestsize).
Proof.
  revert bestj bestsize.
  induction besti as [|i IH]; intros bestj bestsize Hb; [done|].
  destruct bestj as [|j]; [done|]. cbn [difflib.extend_left].
  destruct (a !! i) as [x|]; [|exact Hb]. destruct (b !! j) as [y|]; [|exact Hb].
  destruct (bool_decide (alo < S i)) eqn:E1; [|exact Hb].
  destruct (bool_decide (blo < S j)) eqn:E2; [|exact Hb].
  destruct (eqb (difflib.isbjunk y) junk); [|exact Hb].
  destruct (x =? y)%N; [|exact Hb].
  cbn [andb]. apply IH.
  apply bool_decide_eq_true in E1. apply bool_decide_eq_true in E2.
  unfold block_inside in *. cbn [fst snd] in *. lia.
Qed.

Lemma extend_right_bounds (a b : str) (junk : bool) (alo ahi blo bhi : nat)
    (besti bestj bestsize steps : nat) :
  block_inside alo ahi blo bhi (besti, bestj, bestsize) ->
  block_inside alo ahi blo bhi
    (besti, bestj, difflib.extend_right a b junk ahi bhi besti bestj bestsize steps).
Proof.
  revert bestsize.
  induction steps as [|steps IH]; intros bestsize Hb; [done|].
  cbn [difflib.extend_right].
  destruct (a !! (besti + bestsize)) as [x|]; [|exact Hb].
  destruct (b !! (bestj + bestsize)) as [y|]; [|exact Hb].
  destruct (bool_decide (besti + bestsize < ahi)) eqn:E1; [|exact Hb].
  destruct (bool_decide (bestj + bestsize < bhi)) eqn:E2; [|exact Hb].
  destruct (eqb (difflib.isbjunk y) junk); [|exact Hb].
  destruct (x =? y)%N; [|exact Hb].
  cbn [andb]. apply IH.
  apply bool_decide_eq_true in E1. apply bool_decide_eq_true in E2.
  unfold block_inside in *. cbn [fst snd] in *. lia.
Qed.

(** The block [find_longest_match] returns lies inside the window. *)
Lemma find_longest_match_inside (a b : str) (b2j : gmap N (list nat))
    (alo ahi blo bhi : nat) :
  alo <= ahi -> blo <= bhi ->
  block_inside alo ahi blo bhi (difflib.find_longest_match a b b2j alo ahi blo bhi).
Proof.
  intros Ha Hb. unfold difflib.find_longest_match.
  pose proof (scan_rows_bounds a b2j alo ahi blo bhi (ahi - alo) alo ∅ (alo, blo, 0)
                ltac:(lia) ltac:(lia) ltac:(intros j k; by rewrite lookup_empty)
                ltac:(unfold block_inside; cbn; lia)) as H0.
  destruct (difflib.scan_rows _ _ _ _ _ _ _) as [[i0 j0] k0].
  pose proof (extend_left_bounds a b false alo ahi blo bhi i0 j0 k0 H0) as H1.
  destruct (difflib.extend_left a b false alo blo i0 j0 k0) as [[i1 j1] k1].
  pose proof (extend_right_bounds a b false alo ahi blo bhi i1 j1 k1
                (ahi - (i1 + k1)) H1) as H2.
  set (k2 := difflib.extend_right a b false ahi bhi i1 j1 k1 (ahi - (i1 + k1))) in *.
  pose proof (extend_left_bounds a b true alo ahi blo bhi i1 j1 k2 H2) as H3.
  destruct (difflib.extend_left a b true alo blo i1 j1 k2) as [[i3 j3] k3].
  apply (extend_right_bounds a b true alo ahi blo bhi i3 j3 k3 _ H3).
Qed.

(** Once the fuel covers the cost of the queue, more fuel changes
    nothing: the loop has emptied its queue. *)
Lemma matching_loop_fuel (a b : str) (b2j : gmap N (list nat)) (fuel fuel' : nat)
    (queue : list (nat * nat * nat * nat)) (blocks : list difflib.block) :
  Forall window_ok queue ->
  queue_cost queue <= fuel -> queue_cost queue <= fuel' ->
  difflib.matching_loop a b b2j fuel queue blocks
    = difflib.matching_loop a b b2j fuel' queue blocks.
Proof.
  revert fuel' queue blocks.
  induction fuel as [|fuel IH]; intros fuel' queue blocks Hok Hf Hf'.
  - destruct queue as [|q queue]; [by destruct fuel'|].
    cbn [queue_cost foldr] in Hf. unfold window_cost in Hf. lia.
  - destruct queue as [|[[[alo ahi] blo] bhi] queue]; [by destruct fuel'|].
    destruct fuel' as [|fuel'].
    { cbn [queue_cost foldr] in Hf'. unfold window_cost in Hf'. lia. }
    apply Forall_cons in Hok as [[Ha Hb] Hok]. cbn [fst snd] in Ha, Hb.
    cbn [queue_cost foldr] in Hf, Hf'. fold (queue_cost queue) in Hf, Hf'.
    unfold window_cost in Hf, Hf'. cbn [fst snd] in Hf, Hf'.
    cbn [difflib.matching_loop].
    pose proof (find_longest_match_inside a b b2j alo ahi blo bhi Ha Hb) as Hin.
    destruct (difflib.find_longest_match a b b2j alo ahi blo bhi) as [[i j] k].
    unfold block_inside in Hin. cbn [fst snd] in Hin.
    case_bool_decide as Hk; [apply IH; [done | lia | lia]|].
    destruct (bool_decide (i + k < ahi /\ j + k < bhi)) eqn:E1;
      destruct (bool_decide (alo < i /\ blo < j)) eqn:E2;
      try (apply bool_decide_eq_true in E1 as [? ?]);
      try (apply bool_decide_eq_true in E2 as [? ?]);
      (apply IH;
       [ repeat apply Forall_cons_2; try done; split; cbn [fst snd]; lia
       | cbn [queue_cost foldr]; fold (queue_cost queue); unfold window_cost;
         cbn [fst snd]; lia
       | cbn [queue_cost foldr]; fold (queue_cost queue); unfold window_cost;
         cbn [fst snd]; lia ]).
Qed.

(** The fuel of [get_matching_blocks] is enough for every pair of
    sequences. *)
Lemma get_matching_blocks_fuel (a b : str) (fuel : nat) :
  length a + length b + 1 <= fuel ->
  difflib.matching_loop a b (difflib.chain_b b) fuel [(0, length a, 0, length b)] []
    = difflib.matching_loop a b (difflib.chain_b b) (length a + length b + 1)
        [(0, length a, 0, length b)] [].
Proof.
  intros Hf. apply matching_loop_fuel.
  - apply Forall_cons. split; [|done]. unfold window_ok. cbn. lia.
  - cbn [queue_cost foldr]. unfold window_cost. cbn [fst snd]. lia.
  - cbn [queue_cost foldr]. unfold window_cost. cbn [fst snd]. lia.
Qed.

(** ** The memoising decorator *)

Lemma lru_get_head {K V} `{EqDecision K} (k : K) (v : V) (c : lru K V) :
  lru_get k ((k, v) :: c) = Some v.
Proof. simpl. by rewrite decide_True. Qed.

Lemma lru_cache_hit {K V} `{EqDecision K} n get set (f : K -> M V) k w v :
  lru_get k (get w) = Some v ->
  lru_cache n get set f k w = (Ok v, set ((k, v) :: lru_del k (get w)) w).
Proof. intros H. unfold lru_cache. by rewrite H. Qed.

Lemma lru_cache_miss {K V} `{EqDecision K} n get set (f : K -> M V) k w :
  lru_get k (get w) = None ->
  lru_cache n get set f k w =
    match f k w with
    | (Ok v, w') => (Ok v, set (take n ((k, v) :: get w')) w')
    | (Raise e, w') => (Raise e, w')
    end.
Proof. intros H. unfold lru_cache. by rewrite H. Qed.

(** A call that returns leaves its result memoised. *)
Lemma lru_cache_memoises {K V} `{EqDecision K} n get set (f : K -> M V) k w v w' :
  0 < n -> (forall c w0, get (set c w0) = c) ->
  lru_cache n get set f k w = (Ok v, w') -> lru_get k (get w') = Some v.
Proof.
  intros Hn Hgs. unfold lru_cache.
  destruct (lru_get k (get w)) as [v0|] eqn:E.
  - intros [= <- <-]. rewrite Hgs. apply lru_get_head.
  - destruct (f k w) as [[v1|e] w1]; intros [= <- <-].
    rewrite Hgs. destruct n; [lia|]. apply lru_get_head.
Qed.

(** ** The loader *)

Lemma question_lines_retained (ls : list str) : question_lines ls = retained ls.
Proof.
  unfold question_lines, retained. induction ls as [|l ls IH]; [done|].
  cbn [omap list_omap fmap list_fmap]. rewrite filter_cons.
  case_bool_decide as E.
  - rewrite decide_False by (intros Hne; by apply Hne). exact IH.
  - rewrite decide_True by done. by f_equal.
Qed.

Lemma answer_lines_retained (ls : list str) :
  answer_lines ls = clean_response <$> retained ls.
Proof.
  unfold answer_lines, retained. induction ls as [|l ls IH]; [done|].
  cbn [omap list_omap fmap list_fmap]. rewrite filter_cons.
  case_bool_decide as E.
  - rewrite decide_False by (intros Hne; by apply Hne). exact IH.
  - rewrite decide_True by done. cbn [fmap list_fmap]. by f_equal.
Qed.

Lemma answer_lines_app (l1 l2 : list str) :
  answer_lines (l1 ++ l2) = answer_lines l1 ++ answer_lines l2.
Proof. unfold answer_lines. apply omap_app. Qed.

Lemma read_qa_pairs_no_questions (qp ap : str) (w : World) :
  files w qp = NoFile ->
  read_qa_pairs (qp, ap) w = (Ok [], log (Opened qp) w).
Proof.
  intros Hq. unfold read_qa_pairs, try_except, bind, open. cbn [fst snd].
  by rewrite Hq.
Qed.

Lemma read_qa_pairs_no_answers (qp ap : str) (w : World) :
  files w qp <> NoFile -> (forall e, files w qp <> Unreadable e) ->
  files w ap = NoFile ->
  read_qa_pairs (qp, ap) w = (Ok [], log (Opened ap) (log (Opened qp) w)).
Proof.
  intros Hq1 Hq2 Ha. unfold read_qa_pairs, try_except, bind, open. cbn [fst snd].
  destruct (files w qp) as [|e| |] eqn:Hq; try done; [by destruct (Hq2 e)|..];
    cbn [files log]; by rewrite Ha.
Qed.

Lemma read_qa_pairs_lines (qp ap : str) (w : World) (ql al : list str) :
  files w qp = Lines ql -> files w ap = Lines al ->
  read_qa_pairs (qp, ap) w =
    (Ok (zip (question_lines ql) (answer_lines al)),
     log (Opened ap) (log (Opened qp) w)).
Proof.
  intros Hq Ha. unfold read_qa_pairs, try_except, bind, open. cbn [fst snd].
  rewrite Hq. cbn [files log]. by rewrite Ha.
Qed.

Lemma load_qa_pairs_memoises (qp ap : str) (w w' : World) (kb : list (str * str)) :
  load_qa_pairs qp ap w = (Ok kb, w') -> lru_get (qp, ap) (qa_cache w') = Some kb.
Proof.
  unfold load_qa_pairs. apply lru_cache_memoises; [unfold CACHE_SIZE; lia | done].
Qed.

(** C9. When a call of the loader has returned a sequence, a second call
    with the same pair of paths returns the same sequence and opens no
    file, whatever the files have become in between. *)
Theorem load_qa_pairs_second_call_cached (qp ap : str) (w w1 : World)
    (kb : list (str * str)) :
  load_qa_pairs qp ap w = (Ok kb, w1) ->
  forall fs : str -> file,
    exists w2, load_qa_pairs qp ap (set_files fs w1) = (Ok kb, w2)
               /\ trace w2 = trace w1.
Proof.
  intros H fs. apply load_qa_pairs_memoises in H.
  eexists. split.
  - unfold load_qa_pairs. apply lru_cache_hit. exact H.
  - reflexivity.
Qed.

(** C7. Read from two files, the knowledge base pairs the Nth retained
    (trimmed, non-empty) question line with the Nth retained answer line
    (cleaned of its numbering), and it has the length of the shorter of the
    two lists of retained lines; the call returns, no error is raised. *)
Theorem load_qa_pairs_positional (qp ap : str) (w : World) (ql al : list str) :
  lru_get (qp, ap) (qa_cache w) = None ->
  files w qp = Lines ql -> files w ap = Lines al ->
  exists kb w',
    load_qa_pairs qp ap w = (Ok kb, w') /\
    length kb = min (length (retained ql)) (length (retained al)) /\
    (forall n q a, retained ql !! n = Some q -> retained al !! n = Some a ->
                   kb !! n = Some (q, clean_response a)).
Proof.
  intros Hmiss Hq Ha. unfold load_qa_pairs.
  rewrite lru_cache_miss by done.
  rewrite (read_qa_pairs_lines _ _ _ _ _ Hq Ha).
  rewrite question_lines_retained, answer_lines_retained.
  eexists _, _. split; [reflexivity|]. split.
  - by rewrite length_zip, length_fmap.
  - intros n q a Hn Hm. apply lookup_zip_Some. split; [done|].
    by rewrite list_lookup_fmap, Hm.
Qed.

(** C2, amended. The numbering of a retained answer line is stripped
    whenever the trimmed line begins with a digit and its first [". "]
    starts at index 3 at most: a prefix of one, two or three characters is
    removed with the [". "], a prefix of four or more is kept; and a stored
    answer that differs from its trimmed line always arises this way. *)
Theorem answer_lines_numbering :
  (forall (before after : list str) (line pre rest : str) (c : N),
     strip line = pre ++ dot_space ++ rest ->
     head pre = Some c -> isdigit c = true -> 46%N ∉ pre ->
     answer_lines (before ++ line :: after) =
       answer_lines before
       ++ (if bool_decide (length pre <= 3) then rest else strip line)
       :: answer_lines after) /\
  (forall (line stored : str),
     answer_lines [line] = [stored] -> stored <> strip line ->
     exists c pre,
       head (strip line) = Some c /\ isdigit c = true /\
       strip line = pre ++ dot_space ++ stored /\
       find dot_space (strip line) = Some (length pre) /\ length pre <= 3).
Proof.
  split.
  - intros before after line pre rest c Hline Hc Hd Hdot.
    rewrite answer_lines_app. f_equal.
    change (line :: after) with ([line] ++ after).
    rewrite answer_lines_app. cbn [app]. f_equal.
    unfold answer_lines at 1. cbn [omap list_omap].
    rewrite bool_decide_eq_false_2.
    + simpl. f_equal. rewrite Hline.
      rewrite (clean_response_numbered pre rest c Hc Hd Hdot).
      by case_bool_decide.
    + rewrite Hline. destruct pre; done.
  - intros line stored Hst Hne. unfold answer_lines in Hst.
    cbn [omap list_omap] in Hst. case_bool_decide as E; [done|].
    injection Hst as Hst.
    destruct (strip line) as [|c l] eqn:Hs; [done|].
    destruct (isdigit c) eqn:Hd.
    + destruct (contains dot_space (take 5 (c :: l))) eqn:Hin.
      * destruct (clean_response_strips (c :: l) c eq_refl Hd Hin)
          as (pre & rest & Heq & Hf & Hle & Hcl).
        exists c, pre. rewrite Hcl in Hst. subst rest. done.
      * exfalso. apply Hne. rewrite <- Hst. apply clean_response_keeps.
        intros c' [= <-] _. exact Hin.
    + exfalso. apply Hne. rewrite <- Hst. apply clean_response_keeps.
      intros c' [= <-] Hd'. congruence.
Qed.

(** ** Scores *)

Lemma Qgeb_le (x y : Q) : Qgeb x y = true <-> (y <= x)%Q.
Proof. unfold Qgeb. apply Qle_bool_iff. Qed.

Lemma Qltb_lt (x y : Q) : Qltb x y = true <-> (x < y)%Q.
Proof.
  unfold Qltb. rewrite negb_true_iff. split.
  - intros H. apply Qnot_le_lt. intros Hle.
    apply Qle_bool_iff in Hle. congruence.
  - intros H. destruct (Qle_bool y x) eqn:E; [|done].
    apply Qle_bool_iff in E. by apply Qlt_not_le in H.
Qed.

Lemma Qgeb_lt_false (x y : Q) : (x < y)%Q -> Qgeb x y = false.
Proof.
  intros H. destruct (Qgeb x y) eqn:E; [|done].
  apply Qgeb_le in E. by apply Qlt_not_le in H.
Qed.

Lemma Qltb_le_false (x y : Q) : (y <= x)%Q -> Qltb x y = false.
Proof.
  intros H. destruct (Qltb x y) eqn:E; [|done].
  apply Qltb_lt in E. by apply Qlt_not_le in E.
Qed.

Lemma Qltb_false_le (x y : Q) : Qltb x y = false -> (y <= x)%Q.
Proof.
  unfold Qltb. rewrite negb_false_iff. apply Qle_bool_iff.
Qed.

(** ** The matcher *)

Lemma similarity_same (q : str) : similarity q q = 1%Q.
Proof. unfold similarity. apply ratio_self. Qed.

Lemma find_best_match_extended_scan (uq : str) (kb : list (str * str)) :
  find_best_match_extended uq kb = scan_pairs uq kb ([], [], 0%Q).
Proof. by destruct kb. Qed.

(** The scan stops at the first pair that reaches the exit score, and
    returns it. *)
Lemma scan_pairs_exit (uq q a : str) (l1 l2 : list (str * str)) (best : str * str * Q) :
  (forall p, p ∈ l1 -> (similarity uq p.1 < SIMILARITY_EXIT)%Q) ->
  (best.2 < SIMILARITY_EXIT)%Q ->
  (SIMILARITY_EXIT <= similarity uq q)%Q ->
  scan_pairs uq (l1 ++ (q, a) :: l2) best = (q, a, similarity uq q).
Proof.
  revert best. induction l1 as [|[q0 a0] l1 IH]; intros best Hl1 Hbest Hq.
  - cbn [app scan_pairs].
    rewrite (proj2 (Qltb_lt _ _)) by (by eapply Qlt_le_trans).
    by rewrite (proj2 (Qgeb_le _ _)).
  - cbn [app scan_pairs].
    pose proof (Hl1 (q0, a0) (list_elem_of_here _ _)) as H0. cbn [fst] in H0.
    assert (forall p, p ∈ l1 -> (similarity uq p.1 < SIMILARITY_EXIT)%Q) as Hl1'
      by (intros p Hp; apply Hl1; by apply list_elem_of_further).
    destruct (Qltb best.2 (similarity uq q0)).
    + rewrite Qgeb_lt_false by done. by apply IH.
    + by apply IH.
Qed.

(** Without an exit the scan returns the first pair of greatest score,
    when that score exceeds the score it started from. *)
Lemma scan_pairs_no_exit (uq : str) (l : list (str * str)) (best : str * str * Q) :
  (forall p, p ∈ l -> (similarity uq p.1 < SIMILARITY_EXIT)%Q) ->
  (scan_pairs uq l best = best /\
   forall p, p ∈ l -> (similarity uq p.1 <= best.2)%Q) \/
  (exists i q a,
     l !! i = Some (q, a) /\
     scan_pairs uq l best = (q, a, similarity uq q) /\
     (best.2 < similarity uq q)%Q /\
     (forall j p, j < i -> l !! j = Some p ->
                  (similarity uq p.1 < similarity uq q)%Q) /\
     (forall p, p ∈ l -> (similarity uq p.1 <= similarity uq q)%Q)).
Proof.
  revert best. induction l as [|[q0 a0] l IH]; intros best Hl.
  - left. split; [done|]. intros p Hp. by apply elem_of_nil in Hp.
  - pose proof (Hl (q0, a0) (list_elem_of_here _ _)) as H0. cbn [fst] in H0.
    assert (forall p, p ∈ l -> (similarity uq p.1 < SIMILARITY_EXIT)%Q) as Hl'
      by (intros p Hp; apply Hl; by apply list_elem_of_further).
    cbn [scan_pairs].
    destruct (Qltb best.2 (similarity uq q0)) eqn:Hlt.
    + apply Qltb_lt in Hlt. rewrite Qgeb_lt_false by done.
      right. destruct (IH (q0, a0, similarity uq q0) Hl')
        as [[Hr Hle] | (i & q & a & Hi & Hr & Hbq & Hbefore & Hall)].
      * exists 0, q0, a0. split; [done|]. split; [done|]. split; [done|].
        split; [intros j p Hj; lia|].
        intros p Hp. apply elem_of_cons in Hp as [-> | Hp]; [apply Qle_refl|].
        by apply Hle.
      * cbn [snd] in Hbq. exists (S i), q, a.
        split; [done|]. split; [done|].
        split; [by eapply Qlt_trans|]. split.
        -- intros [|j] p Hj Hp.
           ++ injection Hp as <-. done.
           ++ apply (Hbefore j); [lia | done].
        -- intros p Hp. apply elem_of_cons in Hp as [-> | Hp];
             [by apply Qlt_le_weak | by apply Hall].
    + apply Qltb_false_le in Hlt.
      destruct (IH best Hl')
        as [[Hr Hle] | (i & q & a & Hi & Hr & Hbq & Hbefore & Hall)].
      * left. split; [done|].
        intros p Hp. apply elem_of_cons in Hp as [-> | Hp]; [done | by apply Hle].
      * right. exists (S i), q, a.
        split; [done|]. split; [done|]. split; [done|]. split.
        -- intros [|j] p Hj Hp.
           ++ injection Hp as <-. by eapply Qle_lt_trans.
           ++ apply (Hbefore j); [lia | done].
        -- intros p Hp. apply elem_of_cons in Hp as [-> | Hp]; [|by apply Hall].
           apply Qlt_le_weak. by eapply Qle_lt_trans.
Qed.

(** C4. The matcher returns the empty match with score 0 on an empty
    knowledge base; it stops at the first pair scoring 0.95 or more and
    returns it, whatever follows; and when no pair reaches 0.95 it returns
    the first pair of greatest score, every earlier pair scoring strictly
    less (the empty match stays when no pair scores above 0). *)
Theorem find_best_match_extended_policy (uq : str) (kb : list (str * str)) :
  (kb = [] -> find_best_match_extended uq kb = ([], [], 0%Q)) /\
  (forall l1 q a l2,
     kb = l1 ++ (q, a) :: l2 ->
     (forall p, p ∈ l1 -> (similarity uq p.1 < SIMILARITY_EXIT)%Q) ->
     (SIMILARITY_EXIT <= similarity uq q)%Q ->
     find_best_match_extended uq kb = (q, a, similarity uq q)) /\
  ((forall p, p ∈ kb -> (similarity uq p.1 < SIMILARITY_EXIT)%Q) ->
   (find_best_match_extended uq kb = ([], [], 0%Q) /\
    forall p, p ∈ kb -> (similarity uq p.1 <= 0)%Q) \/
   (exists i q a,
      kb !! i = Some (q, a) /\
      find_best_match_extended uq kb = (q, a, similarity uq q) /\
      (0 < similarity uq q)%Q /\
      (forall j p, j < i -> kb !! j = Some p ->
                   (similarity uq p.1 < similarity uq q)%Q) /\
      (forall p, p ∈ kb -> (similarity uq p.1 <= similarity uq q)%Q))).
Proof.
  split; [by intros ->|]. split.
  - intros l1 q a l2 -> Hl1 Hq. rewrite find_best_match_extended_scan.
    by apply scan_pairs_exit.
  - intros Hall. rewrite find_best_match_extended_scan.
    apply (scan_pairs_no_exit uq kb ([], [], 0%Q) Hall).
Qed.

(** ** The loader leaves the service and its memo alone *)

Lemma load_qa_pairs_frame (qp ap : str) (w w' : World) (r : result (list (str * str))) :
  load_qa_pairs qp ap w = (r, w') ->
  files w' = files w /\ service w' = service w /\ api_cache w' = api_cache w /\
  exists paths, trace w' = trace w ++ (Opened <$> paths).
Proof.
  unfold load_qa_pairs, lru_cache.
  destruct (lru_get (qp, ap) (qa_cache w)) as [v|].
  - intros [= <- <-]. repeat split. exists []. cbn. by rewrite app_nil_r.
  - unfold read_qa_pairs, try_except, bind, open. cbn [fst snd].
    destruct (files w qp) eqn:Hq; cbn [files log];
      try destruct (files w ap) eqn:Ha; cbn;
      try case_bool_decide;
      intros [= <- <-]; repeat split;
      first [ by exists [qp] | exists [qp; ap]; cbn; by rewrite <- app_assoc ].
Qed.

(** ** The completion service behind its memo *)

Lemma get_api_response_miss (msgs : list (str * str)) (w : World) :
  lru_get msgs (api_cache w) = None ->
  get_api_response msgs w =
    (Ok (api_answer w msgs),
     set_api_cache (take CACHE_SIZE ((msgs, api_answer w msgs) :: api_cache w))
                   (log (Requested (chat_request msgs)) w)).
Proof.
  intros H. unfold get_api_response. rewrite lru_cache_miss by done.
  unfold call_api, api_answer. by destruct (service w (chat_request msgs)).
Qed.

Lemma get_api_response_hit (msgs : list (str * str)) (w : World) (memo : str) :
  lru_get msgs (api_cache w) = Some memo ->
  get_api_response msgs w =
    (Ok memo, set_api_cache ((msgs, memo) :: lru_del msgs (api_cache w)) w).
Proof. intros H. unfold get_api_response. by apply lru_cache_hit. Qed.

(** [get_api_response] never raises. *)
Lemma get_api_response_returns (msgs : list (str * str)) (w : World) :
  exists response w', get_api_response msgs w = (Ok response, w').
Proof.
  destruct (lru_get msgs (api_cache w)) as [memo|] eqn:E.
  - rewrite (get_api_response_hit _ _ _ E). by eexists _, _.
  - rewrite (get_api_response_miss _ _ E). by eexists _, _.
Qed.

Lemma generate_smart_response_good (uq mq ma : str) (s : Q) (w : World) :
  (SIMILARITY_GOOD <= s)%Q -> generate_smart_response uq mq ma s w = (Ok ma, w).
Proof.
  intros H. unfold generate_smart_response. by rewrite (proj2 (Qgeb_le _ _) H).
Qed.

Lemma generate_smart_response_partial (uq mq ma : str) (s : Q) (w : World) :
  (SIMILARITY_PARTIAL <= s)%Q -> (s < SIMILARITY_GOOD)%Q ->
  generate_smart_response uq mq ma s w =
    match get_api_response (partial_messages uq mq ma) w with
    | (Ok response, w') => (Ok (HEDGE ++ response), w')
    | (Raise e, w') => (Raise e, w')
    end.
Proof.
  intros H1 H2. unfold generate_smart_response.
  by rewrite (Qgeb_lt_false _ _ H2), (proj2 (Qgeb_le _ _) H1).
Qed.

Lemma generate_smart_response_none (uq mq ma : str) (s : Q) (w : World) :
  (s < SIMILARITY_PARTIAL)%Q ->
  generate_smart_response uq mq ma s w = (Ok DEFAULT_RESPONSE, w).
Proof.
  intros H. unfold generate_smart_response.
  assert (s < SIMILARITY_GOOD)%Q as H'
    by (eapply Qlt_trans; [exact H | reflexivity]).
  by rewrite (Qgeb_lt_false _ _ H'), (Qgeb_lt_false _ _ H).
Qed.


(** ** The facade *)

Lemma ask_assistant_blank (uq qf af : str) (w : World) :
  strip uq = [] -> ask_assistant uq qf af w = (Ok ASK_PROMPT, w).
Proof. intros H. unfold ask_assistant. by rewrite bool_decide_eq_true_2. Qed.

Lemma should_process_false (uq : str) :
  length (lower (strip uq)) <= 3 \/ lower (strip uq) ∈ GREETINGS ->
  should_process uq = false.
Proof.
  intros H. unfold should_process. apply andb_false_iff.
  destruct H as [H|H].
  - left. apply bool_decide_eq_false_2. lia.
  - right. apply bool_decide_eq_false_2. by intros Hn.
Qed.

(** How [ask_assistant] continues once past its two checks. *)
Lemma ask_assistant_processed (uq qf af : str) (w : World) :
  strip uq <> [] -> should_process uq = true ->
  ask_assistant uq qf af w =
    match load_qa_pairs qf af w with
    | (Ok kb, w1) =>
        let '(mq, ma, s) := find_best_match_extended uq kb in
        if bool_decide (ma = []) then (Ok DEFAULT_RESPONSE, w1)
        else generate_smart_response uq mq ma s w1
    | (Raise e, w1) => (Raise e, w1)
    end.
Proof.
  intros Hb Hp. unfold ask_assistant.
  rewrite bool_decide_eq_false_2 by done. rewrite Hp. cbn [negb].
  unfold bind. destruct (load_qa_pairs qf af w) as [[kb|e] w1]; [|done].
  destruct (find_best_match_extended uq kb) as [[mq ma] s].
  by case_bool_decide.
Qed.

(** C5, amended. A blank input is answered with the request to ask a
    question. An input that is not blank and whose trimmed, lower-cased
    text has at most 3 characters, or is one of the three greetings, is
    answered with the default refusal; in both cases nothing is loaded and
    no request is made: the world is unchanged. *)
Theorem ask_assistant_prefilter (uq qf af : str) (w : World) :
  (strip uq = [] -> ask_assistant uq qf af w = (Ok ASK_PROMPT, w)) /\
  (strip uq <> [] ->
   length (lower (strip uq)) <= 3 \/ lower (strip uq) ∈ GREETINGS ->
   ask_assistant uq qf af w = (Ok DEFAULT_RESPONSE, w)).
Proof.
  split; [apply ask_assistant_blank|].
  intros Hb H. unfold ask_assistant.
  rewrite bool_decide_eq_false_2 by done.
  by rewrite (should_process_false uq H).
Qed.

(** C8, amended. When the files are actually read (no memoised result
    for the pair of paths) and the questions file is missing, or it opens
    and the answers file is missing, the loader returns the empty sequence
    and raises nothing, and [ask_assistant] answers every question that is
    not blank with the default refusal. *)
Theorem load_qa_pairs_missing_file (qp ap : str) (w : World) :
  lru_get (qp, ap) (qa_cache w) = None ->
  files w qp = NoFile \/
    ((forall e, files w qp <> Unreadable e) /\ files w ap = NoFile) ->
  (exists w', load_qa_pairs qp ap w = (Ok [], w')) /\
  (forall uq, strip uq <> [] ->
     exists w', ask_assistant uq qp ap w = (Ok DEFAULT_RESPONSE, w')).
Proof.
  intros Hmiss Hfiles.
  assert (exists w', load_qa_pairs qp ap w = (Ok [], w')) as [w' Hload].
  { unfold load_qa_pairs. rewrite lru_cache_miss by done.
    destruct Hfiles as [Hq|[Hq' Ha]].
    - rewrite (read_qa_pairs_no_questions _ _ _ Hq). by eexists.
    - destruct (files w qp) as [|e| |] eqn:Hq.
      + rewrite (read_qa_pairs_no_questions _ _ _ Hq). by eexists.
      + by destruct (Hq' e).
      + rewrite read_qa_pairs_no_answers by (done || by rewrite Hq). by eexists.
      + rewrite read_qa_pairs_no_answers by (done || by rewrite Hq). by eexists. }
  split; [by exists w'|].
  intros uq Hb. destruct (should_process uq) eqn:Hp.
  - rewrite (ask_assistant_processed _ _ _ _ Hb Hp), Hload.
    cbn. by exists w'.
  - exists w. unfold ask_assistant.
    rewrite bool_decide_eq_false_2 by done. by rewrite Hp.
Qed.

(** C6, amended. When the question passes the blank check and the
    relevance filter, the knowledge base holds a pair whose question is the
    user's text and whose answer is not empty, and no earlier pair scores
    0.95 or more, the score is 1 and [ask_assistant] returns the stored
    answer as it is: no request is made and nothing is added to the memo
    of the service. *)
Theorem ask_assistant_exact_match (uq qf af answer : str) (w w1 : World)
    (l1 l2 : list (str * str)) :
  strip uq <> [] -> should_process uq = true ->
  load_qa_pairs qf af w = (Ok (l1 ++ (uq, answer) :: l2), w1) ->
  (forall p, p ∈ l1 -> (similarity uq p.1 < SIMILARITY_EXIT)%Q) ->
  answer <> [] ->
  find_best_match_extended uq (l1 ++ (uq, answer) :: l2) = (uq, answer, 1%Q) /\
  ask_assistant uq qf af w = (Ok answer, w1) /\
  api_cache w1 = api_cache w /\
  (forall r, Requested r ∈ trace w1 -> Requested r ∈ trace w).
Proof.
  intros Hb Hp Hload Hl1 Ha.
  assert (find_best_match_extended uq (l1 ++ (uq, answer) :: l2) = (uq, answer, 1%Q))
    as Hbest.
  { rewrite find_best_match_extended_scan.
    rewrite (scan_pairs_exit uq uq answer l1 l2 ([], [], 0%Q) Hl1).
    - by rewrite similarity_same.
    - reflexivity.
    - rewrite similarity_same. discriminate. }
  split; [exact Hbest|]. split.
  - rewrite (ask_assistant_processed _ _ _ _ Hb Hp), Hload, Hbest.
    rewrite bool_decide_eq_false_2 by done.
    by apply generate_smart_response_good.
  - destruct (load_qa_pairs_frame _ _ _ _ _ Hload) as (_ & _ & Hc & paths & Ht).
    split; [done|]. intros r. rewrite Ht, elem_of_app.
    intros [H|H]; [done|]. apply list_elem_of_fmap in H as (p & Hp' & _). done.
Qed.

(** The failure path of the partial band, for every exception: when the
    service is called and fails, [get_api_response] returns the default
    refusal in place of a completion and raises nothing;
    [generate_smart_response] cannot tell it from a completion and puts
    the hedging phrase before it, where every other refusal of the program
    is the bare default refusal. *)
Theorem api_failure_absorbed (uq qf af mq ma : str) (s : Q) (w w1 : World)
    (kb : list (str * str)) (e : exception) :
  strip uq <> [] -> should_process uq = true ->
  load_qa_pairs qf af w = (Ok kb, w1) ->
  find_best_match_extended uq kb = (mq, ma, s) -> ma <> [] ->
  (SIMILARITY_PARTIAL <= s)%Q -> (s < SIMILARITY_GOOD)%Q ->
  lru_get (partial_messages uq mq ma) (api_cache w) = None ->
  service w (chat_request (partial_messages uq mq ma)) = Failure e ->
  exists w2,
    get_api_response (partial_messages uq mq ma) w1 = (Ok DEFAULT_RESPONSE, w2) /\
    generate_smart_response uq mq ma s w1 = (Ok (HEDGE ++ DEFAULT_RESPONSE), w2) /\
    ask_assistant uq qf af w = (Ok (HEDGE ++ DEFAULT_RESPONSE), w2).
Proof.
  intros Hb Hp Hload Hbest Hma Hs1 Hs2 Hmiss Hfail.
  destruct (load_qa_pairs_frame _ _ _ _ _ Hload) as (_ & Hsv & Hc & _).
  rewrite <- Hc in Hmiss.
  assert (api_answer w1 (partial_messages uq mq ma) = DEFAULT_RESPONSE) as Hans
    by (unfold api_answer; by rewrite Hsv, Hfail).
  pose proof (get_api_response_miss _ _ Hmiss) as Hget. rewrite Hans in Hget.
  eexists. split; [exact Hget|].
  assert (generate_smart_response uq mq ma s w1 =
            (Ok (HEDGE ++ DEFAULT_RESPONSE), 
             set_api_cache
               (take CACHE_SIZE
                  ((partial_messages uq mq ma, DEFAULT_RESPONSE) :: api_cache w1))
               (log (Requested (chat_request (partial_messages uq mq ma))) w1)))
    as Hgen.
  { rewrite (generate_smart_response_partial _ _ _ _ _ Hs1 Hs2). by rewrite Hget. }
  split; [exact Hgen|].
  rewrite (ask_assistant_processed _ _ _ _ Hb Hp), Hload, Hbest.
  by rewrite bool_decide_eq_false_2.
Qed.

(** C10. In the partial band, when the service is called and returns a
    completion, the text after the hedging phrase is [clean_response] of
    the completion, the function the loader applies to stored answers: a
    completion that begins with a digit and has [". "] within its first
    five characters loses everything up to and including its first
    [". "]. *)
Theorem partial_answer_cleaned (uq mq ma content : str) (s : Q) (w : World) :
  (SIMILARITY_PARTIAL <= s)%Q -> (s < SIMILARITY_GOOD)%Q ->
  lru_get (partial_messages uq mq ma) (api_cache w) = None ->
  service w (chat_request (partial_messages uq mq ma)) = Completion content ->
  (exists w', generate_smart_response uq mq ma s w
                = (Ok (HEDGE ++ clean_response content), w')) /\
  (forall line, strip line = content ->
                answer_lines [line] = if bool_decide (content = []) then []
                                      else [clean_response content]) /\
  (forall c, head content = Some c -> isdigit c = true ->
             contains dot_space (take 5 content) = true ->
             exists pre rest,
               content = pre ++ dot_space ++ rest /\
               find dot_space content = Some (length pre) /\
               clean_response content = rest).
Proof.
  intros Hs1 Hs2 Hmiss Hsv. split; [|split].
  - rewrite (generate_smart_response_partial _ _ _ _ _ Hs1 Hs2).
    rewrite (get_api_response_miss _ _ Hmiss).
    unfold api_answer. rewrite Hsv. by eexists.
  - intros line <-. unfold answer_lines. cbn [omap list_omap].
    by case_bool_decide.
  - intros c Hc Hd Hin.
    destruct (clean_response_strips content c Hc Hd Hin)
      as (pre & rest & H1 & H2 & _ & H3).
    by exists pre, rest.
Qed.


(** ** [difflib]: the ratio lies between 0 and 1 *)

Lemma blocks_sum_app (l1 l2 : list difflib.block) :
  blocks_sum (l1 ++ l2) = blocks_sum l1 + blocks_sum l2.
Proof.
  unfold blocks_sum. induction l1 as [|x l1 IH]; [done|].
  cbn [app foldr]. rewrite IH. lia.
Qed.

Lemma blocks_sum_Permutation (l1 l2 : list difflib.block) :
  l1 ≡ₚ l2 -> blocks_sum l1 = blocks_sum l2.
Proof.
  unfold blocks_sum. induction 1 as [|x l1 l2 _ IH|x y l|l1 l2 l3 _ IH1 _ IH2];
    cbn [foldr]; [done | by rewrite IH | lia | congruence].
Qed.

(** The blocks found never add up to more than what the windows allow. *)
Lemma matching_loop_sum (a b : str) (b2j : gmap N (list nat)) (fuel : nat)
    (queue : list (nat * nat * nat * nat)) (blocks : list difflib.block) :
  Forall window_ok queue ->
  blocks_sum (difflib.matching_loop a b b2j fuel queue blocks)
    <= blocks_sum blocks + queue_cap queue.
Proof.
  revert queue blocks. induction fuel as [|fuel IH]; intros queue blocks Hok.
  - cbn [difflib.matching_loop]. lia.
  - destruct queue as [|[[[alo ahi] blo] bhi] queue];
      [cbn [difflib.matching_loop]; lia|].
    apply Forall_cons in Hok as [[Ha Hb] Hok]. cbn [fst snd] in Ha, Hb.
    cbn [difflib.matching_loop].
    pose proof (find_longest_match_inside a b b2j alo ahi blo bhi Ha Hb) as Hin.
    destruct (difflib.find_longest_match a b b2j alo ahi blo bhi) as [[i j] k].
    unfold block_inside in Hin. cbn [fst snd] in Hin.
    cbn [queue_cap foldr]. fold (queue_cap queue). unfold window_cap at 1.
    cbn [fst snd].
    case_bool_decide as Hk.
    { etrans; [apply IH; exact Hok|]. lia. }
    destruct (bool_decide (i + k < ahi /\ j + k < bhi)) eqn:E1;
      destruct (bool_decide (alo < i /\ blo < j)) eqn:E2;
      try (apply bool_decide_eq_true in E1 as [? ?]);
      try (apply bool_decide_eq_true in E2 as [? ?]);
      (etrans;
       [ apply IH; repeat apply Forall_cons_2; try done; split; cbn [fst snd]; lia
       | rewrite blocks_sum_app; cbn [queue_cap foldr]; fold (queue_cap queue);
         unfold window_cap, blocks_sum; cbn [fst snd foldr]; lia ]).
Qed.

Lemma collapse_sum (cur : difflib.block) (blocks non_adjacent : list difflib.block) :
  (difflib.collapse cur blocks non_adjacent).1.2
    + blocks_sum (difflib.collapse cur blocks non_adjacent).2
  = cur.2 + blocks_sum blocks + blocks_sum non_adjacent.
Proof.
  revert cur non_adjacent.
  induction blocks as [|[[i2 j2] k2] blocks IH]; intros [[i1 j1] k1] non_adjacent.
  - cbn [difflib.collapse fst snd]. unfold blocks_sum. cbn [foldr]. lia.
  - cbn [difflib.collapse]. case_bool_decide.
    + rewrite IH. unfold blocks_sum. cbn [fst snd foldr]. lia.
    + rewrite IH. case_bool_decide.
      * unfold blocks_sum. cbn [fst snd foldr]. lia.
      * rewrite blocks_sum_app. unfold blocks_sum. cbn [fst snd foldr]. lia.
Qed.

(** The matching blocks of two sequences cover no more than the shorter
    of the two. *)
Lemma get_matching_blocks_sum (a b : str) :
  blocks_sum (difflib.get_matching_blocks a b) <= length a `min` length b.
Proof.
  unfold difflib.get_matching_blocks.
  pose proof (matching_loop_sum a b (difflib.chain_b b) (length a + length b + 1)
                [(0, length a, 0, length b)] []
                ltac:(apply Forall_cons; split; [split; cbn; lia | done])) as Hloop.
  set (found := difflib.matching_loop _ _ _ _ _ _) in *.
  pose proof (collapse_sum (0, 0, 0) (merge_sort difflib.block_le found) []) as Hc.
  rewrite (blocks_sum_Permutation _ _ (merge_sort_Permutation _ found)) in Hc.
  destruct (difflib.collapse (0, 0, 0) (merge_sort difflib.block_le found) [])
    as [[[i1 j1] k1] non_adjacent].
  cbn [fst snd] in Hc.
  assert (blocks_sum found <= length a `min` length b) as Hf.
  { etrans; [exact Hloop|]. unfold blocks_sum, queue_cap, window_cap.
    cbn [foldr fst snd]. lia. }
  rewrite blocks_sum_app.
  case_bool_decide; [|rewrite blocks_sum_app];
    unfold blocks_sum in *; cbn [foldr fst snd] in *; lia.
Qed.

(** [SequenceMatcher(None, a, b).ratio()] is at least 0 and at most 1. *)
Lemma ratio_range (a b : str) :
  (0 <= difflib.ratio a b)%Q /\ (difflib.ratio a b <= 1)%Q.
Proof.
  unfold difflib.ratio. fold (blocks_sum (difflib.get_matching_blocks a b)).
  pose proof (get_matching_blocks_sum a b) as Hsum.
  set (m := blocks_sum _) in *. unfold difflib.calculate_ratio.
  destruct (length a + length b) as [|n] eqn:E; [split; discriminate|].
  rewrite <- E. split.
  - rewrite Qred_correct. unfold Qle. cbn [Qnum Qden]. lia.
  - rewrite Qred_correct. unfold Qle. cbn [Qnum Qden].
    rewrite Z.mul_1_r, Z.mul_1_l.
    replace (Z.pos (Pos.of_nat (length a + length b)))
      with (Z.of_nat (length a + length b)).
    + lia.
    + rewrite <- (Nat2Pos.id (length a + length b)) at 1 by lia.
      by rewrite positive_nat_Z.
Qed.

(** ** The matcher never invents a pair *)

Lemma similarity_range (uq q : str) :
  (0 <= similarity uq q)%Q /\ (similarity uq q <= 1)%Q.
Proof. unfold similarity. apply ratio_range. Qed.

(** X1: the score the matcher computes for a stored question lies between
    0 and 1, whatever the two texts. *)
Theorem similarity_in_unit_interval (uq q : str) :
  (0 <= similarity uq q)%Q /\ (similarity uq q <= 1)%Q.
Proof. apply similarity_range. Qed.

Lemma scan_pairs_result (uq : str) (l : list (str * str)) (best : str * str * Q) :
  scan_pairs uq l best = best \/
  exists q a, (q, a) ∈ l /\ scan_pairs uq l best = (q, a, similarity uq q) /\
              (best.2 < similarity uq q)%Q.
Proof.
  revert best. induction l as [|[q0 a0] l IH]; intros best; [by left|].
  cbn [scan_pairs]. destruct (Qltb best.2 (similarity uq q0)) eqn:Hlt.
  - apply Qltb_lt in Hlt. right.
    destruct (Qgeb (similarity uq q0) SIMILARITY_EXIT).
    + exists q0, a0. split; [apply list_elem_of_here | done].
    + destruct (IH (q0, a0, similarity uq q0)) as [Hr | (q & a & Hin & Hr & Hs)].
      * exists q0, a0. split; [apply list_elem_of_here | done].
      * exists q, a. split; [by apply list_elem_of_further|]. split; [done|].
        cbn [snd] in Hs. by eapply Qlt_trans.
  - destruct (IH best) as [Hr | (q & a & Hin & Hr & Hs)]; [by left|].
    right. exists q, a. split; [by apply list_elem_of_further | done].
Qed.

(** X2: the matcher returns the empty match with score 0, or a pair of the
    knowledge base with the score of its question, which is above 0 and at
    most 1. *)
Theorem find_best_match_extended_result (uq : str) (kb : list (str * str)) :
  find_best_match_extended uq kb = ([], [], 0%Q) \/
  exists q a,
    (q, a) ∈ kb /\
    find_best_match_extended uq kb = (q, a, similarity uq q) /\
    (0 < similarity uq q)%Q /\ (similarity uq q <= 1)%Q.
Proof.
  rewrite find_best_match_extended_scan.
  destruct (scan_pairs_result uq kb ([], [], 0%Q)) as [H | (q & a & Hin & Hr & Hs)];
    [by left|].
  right. exists q, a. split; [done|]. split; [done|]. split; [done|].
  apply similarity_range.
Qed.

(** ** Trimmed text *)

Lemma drop_while_head {A} (p : A -> bool) (l : list A) (c : A) (l' : list A) :
  drop_while p l = c :: l' -> p c = false.
Proof.
  induction l as [|x l IH]; [done|]. cbn [drop_while].
  destruct (p x) eqn:E; [exact IH|]. by intros [= <- <-].
Qed.

Lemma drop_while_id {A} (p : A -> bool) (l : list A) :
  (forall c, head l = Some c -> p c = false) -> drop_while p l = l.
Proof.
  destruct l as [|x l]; [done|]. intros H. cbn [drop_while].
  by rewrite (H x eq_refl).
Qed.

Lemma drop_while_snoc_keep {A} (p : A -> bool) (l : list A) (c : A) :
  p c = false -> exists k, drop_while p (l ++ [c]) = k ++ [c].
Proof.
  intros Hc. induction l as [|x l [k IH]].
  - exists []. cbn. by rewrite Hc.
  - cbn [app drop_while]. destruct (p x).
    + by exists k.
    + by exists (x :: l).
Qed.

Lemma rstrip_last (s : str) (c : N) : last (rstrip s) = Some c -> isspace c = false.
Proof.
  unfold rstrip. rewrite last_reverse.
  destruct (drop_while isspace (reverse s)) as [|x l] eqn:E; [done|].
  intros [= <-]. by eapply drop_while_head.
Qed.

Lemma rstrip_id (s : str) :
  (forall c, last s = Some c -> isspace c = false) -> rstrip s = s.
Proof.
  intros H. unfold rstrip. rewrite drop_while_id; [apply reverse_involutive|].
  intros c. rewrite head_reverse. apply H.
Qed.

Lemma rstrip_head (s : str) (c : N) :
  head s = Some c -> isspace c = false -> head (rstrip s) = Some c.
Proof.
  destruct s as [|x s]; [done|]. intros [= ->] Hc. unfold rstrip.
  rewrite reverse_cons.
  destruct (drop_while_snoc_keep isspace (reverse s) c Hc) as [k ->].
  by rewrite reverse_snoc.
Qed.

(** A trimmed text neither begins nor ends with whitespace. *)
Lemma strip_ends (s : str) :
  (forall c, head (strip s) = Some c -> isspace c = false) /\
  (forall c, last (strip s) = Some c -> isspace c = false).
Proof.
  split; [|intros c; apply rstrip_last].
  intros c Hc. unfold strip, lstrip in *.
  destruct (drop_while isspace s) as [|x l] eqn:E; [done|].
  pose proof (drop_while_head _ _ _ _ E) as Hx.
  rewrite (rstrip_head (x :: l) x eq_refl Hx) in Hc. by injection Hc as <-.
Qed.

Lemma strip_idemp (s : str) : strip (strip s) = strip s.
Proof.
  destruct (strip_ends s) as [Hh Hl].
  unfold strip at 1. unfold lstrip. rewrite drop_while_id by exact Hh.
  by apply rstrip_id.
Qed.

(** A trimmed, non-empty answer stays non-empty when its numbering is
    removed: what follows [". "] cannot be empty, the text would end with
    a space. *)
Lemma clean_response_strip_nonempty (line : str) :
  strip line <> [] -> clean_response (strip line) <> [].
Proof.
  intros Hne Hempty.
  destruct (strip line) as [|c l] eqn:Hs; [done|].
  destruct (isdigit c) eqn:Hd.
  - destruct (contains dot_space (take 5 (c :: l))) eqn:Hin.
    + destruct (clean_response_strips (c :: l) c eq_refl Hd Hin)
        as (pre & rest & Heq & _ & _ & Hcl).
      rewrite Hempty in Hcl. subst rest.
      destruct (strip_ends line) as [_ Hlast].
      specialize (Hlast 32%N). rewrite Hs, Heq in Hlast.
      rewrite app_nil_r in Hlast. unfold dot_space in Hlast.
      assert (last (pre ++ [46%N; 32%N]) = Some 32%N) as Hl32.
      { change [46%N; 32%N] with ([46%N] ++ [32%N]).
        rewrite app_assoc. apply last_snoc. }
      specialize (Hlast Hl32). discriminate.
    + rewrite clean_response_keeps in Hempty; [done|].
      intros c' [= <-] _. exact Hin.
  - rewrite clean_response_keeps in Hempty; [done|].
    intros c' [= <-] Hd'. congruence.
Qed.

(** ** The loader: what it stores, and what it does not memoise *)

(** X3: every pair read from the files has a trimmed, non-empty question
    and a non-empty answer. *)
Theorem load_qa_pairs_well_formed (qp ap : str) (w w' : World) (ql al : list str)
    (kb : list (str * str)) :
  lru_get (qp, ap) (qa_cache w) = None ->
  files w qp = Lines ql -> files w ap = Lines al ->
  load_qa_pairs qp ap w = (Ok kb, w') ->
  forall q a, (q, a) ∈ kb -> q <> [] /\ strip q = q /\ a <> [].
Proof.
  intros Hmiss Hq Ha Hload q a Hin. unfold load_qa_pairs in Hload.
  rewrite lru_cache_miss in Hload by done.
  rewrite (read_qa_pairs_lines _ _ _ _ _ Hq Ha) in Hload.
  injection Hload as <- _.
  apply elem_of_zip_l in Hin as Hql. apply elem_of_zip_r in Hin as Hal.
  rewrite question_lines_retained in Hql. rewrite answer_lines_retained in Hal.
  unfold retained in Hql, Hal.
  apply list_elem_of_filter in Hql as [Hne Hql].
  apply list_elem_of_fmap in Hql as (x & -> & _).
  apply list_elem_of_fmap in Hal as (r & -> & Hr).
  apply list_elem_of_filter in Hr as [Hrne Hr].
  apply list_elem_of_fmap in Hr as (y & -> & _).
  split; [done|]. split; [apply strip_idemp|].
  by apply clean_response_strip_nonempty.
Qed.

(** Reading the files leaves the memo alone; what it raises is no
    [FileNotFoundError] and comes from [open] or from the decoding. *)
Lemma read_qa_pairs_cases (qp ap : str) (w w' : World) (r : result (list (str * str))) :
  read_qa_pairs (qp, ap) w = (r, w') ->
  qa_cache w' = qa_cache w /\
  forall e, r = Raise e -> e <> FileNotFoundError /\ read_error (files w) qp ap e.
Proof.
  unfold read_qa_pairs, try_except, bind, open, read_error. cbn [fst snd].
  destruct (files w qp) as [|e1| |] eqn:Hq; cbn [files log];
    try destruct (files w ap) as [|e2| |] eqn:Ha; cbn;
    try case_bool_decide; intros [= <- <-]; (split; [done|]);
    intros e [= <-]; (split; [done|]);
    first [ by left | by right; left
          | right; right; split; [done|]; first [by left | by right] ].
Qed.


(** ** The memos *)

Lemma lru_get_None {K V} `{EqDecision K} (k : K) (c : lru K V) :
  lru_get k c = None <-> k ∉ c.*1.
Proof.
  induction c as [|[k' v] c IH]; cbn [lru_get fmap list_fmap fst].
  - split; [intros _; apply not_elem_of_nil | done].
  - rewrite not_elem_of_cons. destruct (decide (k = k')) as [->|Hne].
    + split; [done | by intros [? _]].
    + rewrite IH. split; [by intros ? | by intros [_ ?]].
Qed.

Lemma lru_del_keys {K V} `{EqDecision K} (k k' : K) (c : lru K V) :
  k' ∈ (lru_del k c).*1 -> k' ∈ c.*1.
Proof.
  induction c as [|[k0 v] c IH]; [done|]. cbn [lru_del].
  destruct (decide (k = k0)) as [->|Hne]; cbn [fmap list_fmap fst].
  - apply list_elem_of_further.
  - rewrite !elem_of_cons. intros [->|Hin]; [by left | right; by apply IH].
Qed.

Lemma lru_del_NoDup {K V} `{EqDecision K} (k : K) (c : lru K V) :
  NoDup c.*1 -> NoDup (lru_del k c).*1 /\ k ∉ (lru_del k c).*1.
Proof.
  induction c as [|[k0 v] c IH]; [intros _; split; [constructor | apply not_elem_of_nil]|].
  cbn [lru_del fmap list_fmap fst]. rewrite NoDup_cons. intros [Hk0 Hnd].
  destruct (decide (k = k0)) as [->|Hne].
  - done.
  - destruct (IH Hnd) as [IH1 IH2]. cbn [fmap list_fmap fst]. split.
    + apply NoDup_cons. split; [|done]. intros Hin. by apply lru_del_keys in Hin.
    + rewrite not_elem_of_cons. done.
Qed.

Lemma lru_del_length {K V} `{EqDecision K} (k : K) (c : lru K V) (v : V) :
  lru_get k c = Some v -> S (length (lru_del k c)) = length c.
Proof.
  induction c as [|[k0 v0] c IH]; [done|]. cbn [lru_get lru_del].
  destruct (decide (k = k0)); [done|]. intros H. cbn [length]. by rewrite IH.
Qed.

Lemma NoDup_take_keys {A} (n : nat) (l : list A) : NoDup l -> NoDup (take n l).
Proof.
  revert n. induction l as [|x l IH]; intros [|n] Hnd; cbn; try constructor.
  - apply NoDup_cons in Hnd as [Hx Hnd]. intros Hin. apply Hx.
    apply elem_of_take in Hin as (i & Hi & _). by eapply list_elem_of_lookup_2.
  - apply NoDup_cons in Hnd as [_ Hnd]. by apply IH.
Qed.

(** The decorator keeps a memo within its capacity, one entry per key. *)
Lemma lru_cache_memo_ok {K V} `{EqDecision K} get set (f : K -> M V) k w r w' :
  (forall c w0, get (set c w0) = c) ->
  (forall r0 w0, f k w = (r0, w0) -> get w0 = get w) ->
  memo_ok (get w) ->
  lru_cache CACHE_SIZE get set f k w = (r, w') -> memo_ok (get w').
Proof.
  intros Hgs Hf [Hlen Hnd]. unfold lru_cache.
  destruct (lru_get k (get w)) as [v|] eqn:E.
  - intros [= <- <-]. rewrite Hgs. split.
    + cbn [length]. by rewrite (lru_del_length _ _ _ E).
    + cbn [fmap list_fmap fst]. destruct (lru_del_NoDup k (get w) Hnd).
      by apply NoDup_cons.
  - destruct (f k w) as [[v|e] w1] eqn:Ef; intros [= <- <-].
    + rewrite Hgs. rewrite (Hf _ _ eq_refl). split.
      * cbn [length]. rewrite length_take. unfold CACHE_SIZE. lia.
      * change ((k, v) :: take 255 (get w)) with (take 256 ((k, v) :: get w)).
        rewrite fmap_take. apply NoDup_take_keys. cbn [fmap list_fmap fst].
        apply NoDup_cons. split; [by apply lru_get_None | done].
    + by rewrite (Hf _ _ eq_refl).
Qed.


(** X6: a failure of the service is memoised like an answer: the same
    messages get the default refusal again without any request, even when
    the service has recovered. *)
Theorem get_api_response_failure_memoised (msgs : list (str * str)) (w : World)
    (e : exception) :
  lru_get msgs (api_cache w) = None ->
  service w (chat_request msgs) = Failure e ->
  exists w1,
    get_api_response msgs w = (Ok DEFAULT_RESPONSE, w1) /\
    forall (sv : request -> reply) (fs : str -> file),
      exists w2,
        get_api_response msgs (set_service sv (set_files fs w1))
          = (Ok DEFAULT_RESPONSE, w2) /\
        trace w2 = trace w1.
Proof.
  intros Hmiss Hfail.
  pose proof (get_api_response_miss msgs w Hmiss) as Hget.
  unfold api_answer in Hget. rewrite Hfail in Hget.
  eexists. split; [exact Hget|]. intros sv fs.
  eexists. split.
  - apply get_api_response_hit. cbn. unfold CACHE_SIZE. cbn [take].
    apply lru_get_head.
  - reflexivity.
Qed.

(** ** The facade: what a call can do *)

Lemma get_api_response_effects (msgs : list (str * str)) (w w' : World) (r : result str) :
  get_api_response msgs w = (r, w') ->
  (exists response, r = Ok response) /\
  files w' = files w /\ service w' = service w /\ qa_cache w' = qa_cache w /\
  exists reqs, trace w' = trace w ++ (Requested <$> reqs) /\ length reqs <= 1.
Proof.
  destruct (lru_get msgs (api_cache w)) as [memo|] eqn:E.
  - rewrite (get_api_response_hit _ _ _ E). intros [= <- <-].
    split; [by eexists|]. repeat split. exists []. cbn. rewrite app_nil_r.
    split; [done | lia].
  - rewrite (get_api_response_miss _ _ E). intros [= <- <-].
    split; [by eexists|]. repeat split.
    exists [chat_request msgs]. cbn. split; [done | lia].
Qed.

Lemma generate_smart_response_effects (uq mq ma : str) (s : Q) (w w' : World)
    (r : result str) :
  generate_smart_response uq mq ma s w = (r, w') ->
  (r = Ok ma /\ (SIMILARITY_GOOD <= s)%Q /\ w' = w \/
   r = Ok DEFAULT_RESPONSE /\ (s < SIMILARITY_PARTIAL)%Q /\ w' = w \/
   exists response,
     r = Ok (HEDGE ++ response) /\ (SIMILARITY_PARTIAL <= s)%Q /\ (s < SIMILARITY_GOOD)%Q /\
     get_api_response (partial_messages uq mq ma) w = (Ok response, w')).
Proof.
  unfold generate_smart_response.
  destruct (Qgeb s SIMILARITY_GOOD) eqn:E1.
  - intros [= <- <-]. left. by apply Qgeb_le in E1.
  - assert (s < SIMILARITY_GOOD)%Q as H1.
    { apply Qnot_le_lt. intros H. apply Qgeb_le in H. congruence. }
    destruct (Qgeb s SIMILARITY_PARTIAL) eqn:E2.
    + apply Qgeb_le in E2. unfold bind.
      destruct (get_api_response (partial_messages uq mq ma) w) as [[resp|e] w1] eqn:Hget.
      * intros [= <- <-]. right. right. by exists resp.
      * destruct (get_api_response_effects _ _ _ _ Hget) as [[? ?] _]. done.
    + intros [= <- <-]. right. left. split; [done|]. split; [|done].
      apply Qnot_le_lt. intros H. apply Qgeb_le in H. congruence.
Qed.

Lemma load_qa_pairs_opens (qp ap : str) (w w' : World) (r : result (list (str * str))) :
  load_qa_pairs qp ap w = (r, w') ->
  exists paths, trace w' = trace w ++ (Opened <$> paths) /\ length paths <= 2.
Proof.
  unfold load_qa_pairs, lru_cache.
  destruct (lru_get (qp, ap) (qa_cache w)) as [v|].
  - intros [= <- <-]. exists []. cbn. rewrite app_nil_r. split; [done | lia].
  - unfold read_qa_pairs, try_except, bind, open. cbn [fst snd].
    destruct (files w qp) eqn:Hq; cbn [files log];
      try destruct (files w ap) eqn:Ha; cbn;
      try case_bool_decide;
      intros [= <- <-];
      first [ exists [qp]; cbn; split; [done | lia]
            | exists [qp; ap]; cbn; split; [by rewrite <- app_assoc | lia] ].
Qed.


(** Every way through [ask_assistant]. *)
Lemma ask_assistant_cases (uq qf af : str) (w w' : World) (r : result str) :
  ask_assistant uq qf af w = (r, w') ->
  (strip uq = [] /\ r = Ok ASK_PROMPT /\ w' = w) \/
  (strip uq <> [] /\ should_process uq = false /\ r = Ok DEFAULT_RESPONSE /\ w' = w) \/
  (strip uq <> [] /\ should_process uq = true /\
   ((exists e, load_qa_pairs qf af w = (Raise e, w') /\ r = Raise e) \/
    (exists kb w1 mq ma s,
       load_qa_pairs qf af w = (Ok kb, w1) /\
       find_best_match_extended uq kb = (mq, ma, s) /\
       (ma = [] /\ r = Ok DEFAULT_RESPONSE /\ w' = w1 \/
        ma <> [] /\ generate_smart_response uq mq ma s w1 = (r, w'))))).
Proof.
  destruct (decide (strip uq = [])) as [Hb|Hb].
  - rewrite (ask_assistant_blank _ _ _ _ Hb). intros [= <- <-]. by left.
  - destruct (should_process uq) eqn:Hp.
    + rewrite (ask_assistant_processed _ _ _ _ Hb Hp).
      destruct (load_qa_pairs qf af w) as [[kb|e] w1] eqn:Hload.
      * destruct (find_best_match_extended uq kb) as [[mq ma] s] eqn:Hbest.
        intros H. right. right. split; [done|]. split; [done|]. right.
        exists kb, w1, mq, ma, s. split; [done|]. split; [done|].
        case_bool_decide as Hma.
        -- injection H as <- <-. by left.
        -- by right.
      * intros [= <- <-]. right. right. split; [done|]. split; [done|]. left.
        by exists e.
    + unfold ask_assistant. rewrite bool_decide_eq_false_2 by done. rewrite Hp.
      intros [= <- <-]. right. left. done.
Qed.

Lemma fixed_answers_nonempty :
  ASK_PROMPT <> [] /\ DEFAULT_RESPONSE <> [] /\ forall r : str, HEDGE ++ r <> [].
Proof. repeat split; discriminate. Qed.

Lemma ask_assistant_answer_nonempty (uq qf af answer : str) (w w' : World) :
  ask_assistant uq qf af w = (Ok answer, w') -> answer <> [].
Proof.
  destruct fixed_answers_nonempty as (Hp & Hd & Hh).
  intros H. apply ask_assistant_cases in H
    as [(_ & [= ->] & _) | [(_ & _ & [= ->] & _) | (_ & _ & [(e & _ & ?) | H])]];
    try done.
  destruct H as (kb & w1 & mq & ma & s & _ & _ & [(_ & [= ->] & _) | [Hma Hgen]]);
    [done|].
  apply generate_smart_response_effects in Hgen
    as [([= ->] & _) | [([= ->] & _) | (resp & [= ->] & _)]]; done.
Qed.


(** X7: an answer of [ask_assistant] is never the empty string. *)
Theorem ask_assistant_never_empty (uq qf af answer : str) (w w' : World) :
  ask_assistant uq qf af w = (Ok answer, w') -> answer <> [].
Proof. apply ask_assistant_answer_nonempty. Qed.


(** X9: one call of [ask_assistant] opens at most two files, then makes at
    most one request to the service; it changes neither the files nor the
    service. *)
Theorem ask_assistant_effects (uq qf af : str) (w w' : World) (r : result str) :
  ask_assistant uq qf af w = (r, w') ->
  files w' = files w /\ service w' = service w /\
  exists paths reqs,
    trace w' = trace w ++ (Opened <$> paths) ++ (Requested <$> reqs) /\
    length paths <= 2 /\ length reqs <= 1.
Proof.
  intros H.
  assert (forall w0 : World, files w0 = files w0 /\ service w0 = service w0 /\
            exists paths reqs : list _,
              trace w0 = trace w0 ++ (Opened <$> paths) ++ (Requested <$> reqs) /\
              length paths <= 2 /\ length reqs <= 1) as Hsame.
  { intros w0. repeat split. exists [], []. cbn. rewrite app_nil_r. split; [done | lia]. }
  apply ask_assistant_cases in H
    as [(_ & _ & ->) | [(_ & _ & _ & ->) | (_ & _ & [(e & Hload & _) | H])]];
    [apply Hsame | apply Hsame | |].
  - destruct (load_qa_pairs_frame _ _ _ _ _ Hload) as (Hf & Hs & _ & _).
    destruct (load_qa_pairs_opens _ _ _ _ _ Hload) as (paths & Ht & Hl).
    split; [done|]. split; [done|]. exists paths, []. cbn.
    rewrite app_nil_r. split; [done | lia].
  - destruct H as (kb & w1 & mq & ma & s & Hload & _ & Hrest).
    destruct (load_qa_pairs_frame _ _ _ _ _ Hload) as (Hf & Hs & _ & _).
    destruct (load_qa_pairs_opens _ _ _ _ _ Hload) as (paths & Ht & Hl).
    assert (files w1 = files w /\ service w1 = service w /\
            exists reqs : list request,
              trace w1 = trace w ++ (Opened <$> paths) ++ (Requested <$> reqs) /\
              length reqs <= 1) as Hw1.
    { split; [done|]. split; [done|]. exists []. cbn. rewrite app_nil_r.
      split; [done | lia]. }
    destruct Hrest as [(_ & _ & ->) | [_ Hgen]].
    { destruct Hw1 as (? & ? & reqs & ? & ?). split; [done|]. split; [done|].
      by exists paths, reqs. }
    apply generate_smart_response_effects in Hgen
      as [(_ & _ & ->) | [(_ & _ & ->) | (resp & _ & _ & _ & Hget)]].
    + destruct Hw1 as (? & ? & reqs & ? & ?). split; [done|]. split; [done|].
      by exists paths, reqs.
    + destruct Hw1 as (? & ? & reqs & ? & ?). split; [done|]. split; [done|].
      by exists paths, reqs.
    + destruct (get_api_response_effects _ _ _ _ Hget)
        as (_ & Hf' & Hs' & _ & reqs & Ht' & Hl').
      split; [congruence|]. split; [congruence|].
      exists paths, reqs. rewrite Ht', Ht. by rewrite app_assoc.
Qed.

(** X10: when the question is processed and every stored question scores
    below 0.4, the answer is the default refusal and nothing happens after
    the knowledge base is loaded: no request is made. *)
Theorem ask_assistant_no_match (uq qf af : str) (w w1 : World) (kb : list (str * str)) :
  strip uq <> [] -> should_process uq = true ->
  load_qa_pairs qf af w = (Ok kb, w1) ->
  (forall p, p ∈ kb -> (similarity uq p.1 < SIMILARITY_PARTIAL)%Q) ->
  ask_assistant uq qf af w = (Ok DEFAULT_RESPONSE, w1).
Proof.
  intros Hb Hp Hload Hlow.
  rewrite (ask_assistant_processed _ _ _ _ Hb Hp), Hload.
  rewrite find_best_match_extended_scan.
  destruct (scan_pairs_result uq kb ([], [], 0%Q)) as [-> | (q & a & Hin & -> & _)].
  - by rewrite bool_decide_eq_true_2.
  - case_bool_decide; [done|].
    apply generate_smart_response_none. apply (Hlow (q, a) Hin).
Qed.

(** X11: an answer of [ask_assistant] is the request to ask a question, the
    default refusal, an answer stored in the knowledge base it loaded
    (returned as stored, for a score of 0.6 or more, with no request), or
    the hedging phrase followed by what [get_api_response] returned. *)
Theorem ask_assistant_answer_origin (uq qf af answer : str) (w w' : World) :
  ask_assistant uq qf af w = (Ok answer, w') ->
  answer = ASK_PROMPT \/ answer = DEFAULT_RESPONSE \/
  (exists kb q,
     load_qa_pairs qf af w = (Ok kb, w') /\ (q, answer) ∈ kb /\
     (SIMILARITY_GOOD <= similarity uq q)%Q) \/
  (exists response, answer = HEDGE ++ response).
Proof.
  intros H. apply ask_assistant_cases in H
    as [(_ & [= ->] & _) | [(_ & _ & [= ->] & _) | (_ & _ & [(e & _ & ?) | H])]];
    [by left | by right; left | done |].
  destruct H as (kb & w1 & mq & ma & s & Hload & Hbest & [(_ & [= ->] & _) | [Hma Hgen]]);
    [by right; left|].
  apply generate_smart_response_effects in Hgen
    as [([= ->] & Hs & ->) | [([= ->] & _) | (resp & [= ->] & _)]].
  - right. right. left. exists kb, mq. split; [done|].
    rewrite find_best_match_extended_scan in Hbest.
    destruct (scan_pairs_result uq kb ([], [], 0%Q)) as [Hr | (q & a & Hin & Hr & _)];
      rewrite Hr in Hbest.
    + injection Hbest as <- <- <-. done.
    + injection Hbest as <- <- <-. done.
  - by right; left.
  - right. right. right. by exists resp.
Qed.

(** X12: an answer once given is given again: a second call with the same
    question and paths returns the same answer and opens no file and makes
    no request, whatever the files and the service have become. *)
Theorem ask_assistant_repeat (uq qf af answer : str) (w w1 : World) :
  ask_assistant uq qf af w = (Ok answer, w1) ->
  forall (fs : str -> file) (sv : request -> reply),
    exists w2,
      ask_assistant uq qf af (set_service sv (set_files fs w1)) = (Ok answer, w2) /\
      trace w2 = trace w1.
Proof.
  intros H fs sv. set (w1' := set_service sv (set_files fs w1)).
  apply ask_assistant_cases in H
    as [(Hb & [= ->] & _) | [(Hb & Hp & [= ->] & _) | (Hb & Hp & [(e & _ & ?) | H])]].
  - rewrite (ask_assistant_blank _ _ _ _ Hb). by eexists.
  - exists w1'. split; [|done]. unfold ask_assistant.
    rewrite bool_decide_eq_false_2 by done. by rewrite Hp.
  - done.
  - destruct H as (kb & wl & mq & ma & s & Hload & Hbest & Hrest).
    pose proof (load_qa_pairs_memoises _ _ _ _ _ Hload) as Hmemo.
    rewrite (ask_assistant_processed _ _ _ _ Hb Hp).
    assert (qa_cache w1 = qa_cache wl ->
            load_qa_pairs qf af w1' =
              (Ok kb, set_qa_cache (((qf, af), kb) :: lru_del (qf, af) (qa_cache w1')) w1'))
      as Hhit.
    { intros Hc. unfold load_qa_pairs. apply lru_cache_hit.
      subst w1'. cbn. by rewrite Hc. }
    destruct Hrest as [(Hma & [= ->] & ->) | [Hma Hgen]].
    { rewrite (Hhit eq_refl), Hbest. rewrite bool_decide_eq_true_2 by done.
      by eexists. }
    apply generate_smart_response_effects in Hgen
      as [([= ->] & Hs & ->) | [([= ->] & Hs & ->) | (resp & [= ->] & Hs1 & Hs2 & Hget)]].
    + rewrite (Hhit eq_refl), Hbest. rewrite bool_decide_eq_false_2 by done.
      rewrite generate_smart_response_good by done. by eexists.
    + rewrite (Hhit eq_refl), Hbest. rewrite bool_decide_eq_false_2 by done.
      rewrite generate_smart_response_none by done. by eexists.
    + destruct (get_api_response_effects _ _ _ _ Hget) as (_ & _ & _ & Hqc & _).
      rewrite (Hhit Hqc), Hbest. rewrite bool_decide_eq_false_2 by done.
      rewrite generate_smart_response_partial by done.
      assert (lru_get (partial_messages uq mq ma) (api_cache w1) = Some resp) as Hm.
      { revert Hget. unfold get_api_response.
        apply lru_cache_memoises; [unfold CACHE_SIZE; lia | done]. }
      rewrite (get_api_response_hit _ _ resp) by (subst w1'; cbn; exact Hm).
      by eexists.
Qed.

(** X13: [ask_assistant] keeps both memos within their 256 entries, one
    entry per key. *)
Theorem ask_assistant_memos_bounded (uq qf af : str) (w w' : World) (r : result str) :
  memo_ok (qa_cache w) -> memo_ok (api_cache w) ->
  ask_assistant uq qf af w = (r, w') ->
  memo_ok (qa_cache w') /\ memo_ok (api_cache w').
Proof.
  intros Hq Ha H.
  assert (forall r1 w1, load_qa_pairs qf af w = (r1, w1) ->
            memo_ok (qa_cache w1) /\ memo_ok (api_cache w1)) as Hload_ok.
  { intros r1 w1 Hload. split.
    - revert Hload. unfold load_qa_pairs.
      apply lru_cache_memo_ok; [done | | done].
      intros r0 w0 Hrd. by apply read_qa_pairs_cases in Hrd as [? _].
    - destruct (load_qa_pairs_frame _ _ _ _ _ Hload) as (_ & _ & -> & _). done. }
  apply ask_assistant_cases in H
    as [(_ & _ & ->) | [(_ & _ & _ & ->) | (_ & _ & [(e & Hload & _) | H])]];
    [done | done | by eapply Hload_ok |].
  destruct H as (kb & w1 & mq & ma & s & Hload & _ & Hrest).
  destruct (Hload_ok _ _ Hload) as [Hq1 Ha1].
  destruct Hrest as [(_ & _ & ->) | [_ Hgen]]; [done|].
  apply generate_smart_response_effects in Hgen
    as [(_ & _ & ->) | [(_ & _ & ->) | (resp & _ & _ & _ & Hget)]]; [done | done |].
  destruct (get_api_response_effects _ _ _ _ Hget) as (_ & _ & _ & -> & _).
  split; [done|]. revert Hget. unfold get_api_response.
  apply lru_cache_memo_ok; [done | | done].
  intros r0 w0. unfold call_api.
  destruct (service w1 _); by intros [= <- <-].
Qed.

(** ** [compress_text] *)

Lemma compress_text_halves (m : Z) :
  (0 < m)%Z ->
  (0 <= m / 2)%Z /\ ((- m) / 2 < 0)%Z /\
  Z.to_nat (m / 2) + Z.to_nat (- ((- m) / 2)) = Z.to_nat m /\
  Z.to_nat (m / 2) <= Z.to_nat (- ((- m) / 2)) /\
  Z.to_nat (- ((- m) / 2)) <= Z.to_nat (m / 2) + 1.
Proof. intros Hm. Z.to_euclidean_division_equations. lia. Qed.

Lemma compress_text_long (text : str) (m : Z) :
  (0 < m)%Z -> (m < Z.of_nat (length text))%Z ->
  compress_text text m =
    take (Z.to_nat (m / 2)) text ++ ELLIPSIS
    ++ drop (length text - Z.to_nat (- ((- m) / 2))) text.
Proof.
  intros Hm Hlen. destruct (compress_text_halves m Hm) as (H1 & H2 & _).
  unfold compress_text. rewrite (proj2 (Z.leb_gt _ _)) by lia.
  unfold slice_to, slice_from.
  rewrite (proj2 (Z.leb_le _ _)) by lia. by rewrite (proj2 (Z.leb_gt _ _)) by lia.
Qed.

(** X14: a text longer than a positive limit keeps its first [max_len // 2]
    characters and its last [max_len - max_len // 2] characters, around
    [" [...] "]; what lies between is dropped. *)
Theorem compress_text_shape (text : str) (m : Z) :
  (0 < m)%Z -> (m < Z.of_nat (length text))%Z ->
  exists head middle tail,
    text = head ++ middle ++ tail /\
    compress_text text m = head ++ ELLIPSIS ++ tail /\
    length head = Z.to_nat (m / 2) /\
    length head + length tail = Z.to_nat m /\
    length middle = length text - Z.to_nat m.
Proof.
  intros Hm Hlen. destruct (compress_text_halves m Hm) as (_ & _ & Hsum & _ & _).
  rewrite (compress_text_long text m Hm Hlen).
  set (h := Z.to_nat (m / 2)) in *. set (c := Z.to_nat (- ((- m) / 2))) in *.
  exists (take h text), (take (length text - c - h) (drop h text)),
         (drop (length text - c) text).
  split; [|split; [done|split; [|split]]].
  - replace (drop (length text - c) text)
      with (drop (length text - c - h) (drop h text))
      by (rewrite drop_drop; f_equal; lia).
    by rewrite take_drop, take_drop.
  - rewrite length_take. lia.
  - rewrite length_take, length_drop. lia.
  - rewrite length_take, length_drop. lia.
Qed.

(** X15: for a text longer than a positive limit the result has
    [max_len + 7] characters: it is longer than the limit, and not shorter
    than the text when the text exceeds the limit by 7 characters or
    less. *)
Theorem compress_text_length (text : str) (m : Z) :
  (0 < m)%Z -> (m < Z.of_nat (length text))%Z ->
  length (compress_text text m) = Z.to_nat m + 7 /\
  (m < Z.of_nat (length (compress_text text m)))%Z /\
  (length text <= Z.to_nat m + 7 -> length text <= length (compress_text text m)).
Proof.
  intros Hm Hlen. destruct (compress_text_halves m Hm) as (_ & _ & Hsum & _ & _).
  assert (length (compress_text text m) = Z.to_nat m + 7) as Hl.
  { rewrite (compress_text_long text m Hm Hlen).
    rewrite !length_app, length_take, length_drop.
    change (length ELLIPSIS) with 7. lia. }
  split; [exact Hl|]. split; lia.
Qed.

(** X16: with a positive limit, compressing a compressed text changes
    nothing more. *)
Theorem compress_text_idempotent (text : str) (m : Z) :
  (0 < m)%Z -> compress_text (compress_text text m) m = compress_text text m.
Proof.
  intros Hm. destruct (decide (Z.of_nat (length text) <= m)%Z) as [Hshort|Hlong].
  - unfold compress_text at 2. rewrite (proj2 (Z.leb_le _ _)) by done.
    unfold compress_text. by rewrite (proj2 (Z.leb_le _ _)) by done.
  - assert (m < Z.of_nat (length text))%Z as Hlen by lia.
    destruct (compress_text_halves m Hm) as (_ & _ & Hsum & _ & _).
    rewrite (compress_text_long text m Hm Hlen).
    set (h := Z.to_nat (m / 2)) in *. set (c := Z.to_nat (- ((- m) / 2))) in *.
    set (hd := take h text). set (tl := drop (length text - c) text).
    assert (length hd = h) as Hhd by (subst hd; rewrite length_take; lia).
    assert (length tl = c) as Htl by (subst tl; rewrite length_drop; lia).
    rewrite compress_text_long;
      [| done | rewrite !length_app, Hhd, Htl; change (length ELLIPSIS) with 7; lia].
    fold h c. f_equal.
    + rewrite take_app_length'; done.
    + f_equal. rewrite !length_app, Hhd, Htl. change (length ELLIPSIS) with 7.
      rewrite app_assoc. rewrite drop_app_length'; [done|].
      rewrite length_app, Hhd. change (length ELLIPSIS) with 7. lia.
Qed.

(** X17: with the limit 0 nothing is dropped: [text[-0:]] is the whole
    text, which follows the marker. *)
Theorem compress_text_zero_limit (text : str) :
  text <> [] -> compress_text text 0 = ELLIPSIS ++ text.
Proof.
  intros Hne. unfold compress_text.
  rewrite (proj2 (Z.leb_gt _ _)) by (destruct text; [done | cbn; lia]).
  reflexivity.
Qed.

(** ** The loop of [main] *)

Lemma main_loop_app (l1 l2 : list stdin_event) (out : list output) (w : World) :
  main_loop (l1 ++ l2) out w =
    match main_loop l1 out w with
    | (out1, w1, true) => main_loop l2 out1 w1
    | stopped => stopped
    end.
Proof.
  revert out w. induction l1 as [|ev l1 IH]; intros out w; [done|].
  cbn [app main_loop]. destruct ev as [line| |]; [|done|apply IH].
  case_bool_decide; [apply IH|].
  destruct (ask_assistant_default (strip line) w) as [[answer|e] w']; apply IH.
Qed.

Lemma main_loop_running (inputs : list stdin_event) (out : list output) (w : World) :
  KeyboardInterrupt ∉ inputs -> (main_loop inputs out w).2 = true.
Proof.
  revert out w. induction inputs as [|ev inputs IH]; intros out w Hno; [done|].
  apply not_elem_of_cons in Hno as [Hev Hno]. cbn [main_loop].
  destruct ev as [line| |]; [|done|by apply IH].
  case_bool_decide; [by apply IH|].
  destruct (ask_assistant_default (strip line) w) as [[answer|e] w']; by apply IH.
Qed.

(** X18: the loop of [main] ends at the first interrupt and nowhere else:
    without an interrupt it is still running after any lines, ends of
    input and errors; at the first interrupt it prints the prompt and the
    closing message and reads nothing of what follows. *)
Theorem main_loop_stops_at_interrupt (inputs : list stdin_event) (out : list output)
    (w : World) :
  (KeyboardInterrupt ∉ inputs -> (main_loop inputs out w).2 = true) /\
  (forall l1 l2,
     inputs = l1 ++ KeyboardInterrupt :: l2 -> KeyboardInterrupt ∉ l1 ->
     main_loop inputs out w =
       ((main_loop l1 out w).1.1 ++ [Prompt; Shutdown], (main_loop l1 out w).1.2, false)).
Proof.
  split; [apply main_loop_running|].
  intros l1 l2 -> Hno. rewrite main_loop_app.
  pose proof (main_loop_running l1 out w Hno) as Hrun.
  destruct (main_loop l1 out w) as [[out1 w1] running]. cbn [fst snd] in *.
  subst running. cbn [main_loop]. by rewrite <- app_assoc.
Qed.

Lemma spoken_app (l1 l2 : list output) : spoken (l1 ++ l2) = spoken l1 ++ spoken l2.
Proof. unfold spoken. apply filter_app. Qed.

Lemma main_loop_skips_blank (inputs : list stdin_event) (out out' : list output)
    (w : World) :
  spoken out = spoken out' ->
  spoken (main_loop inputs out w).1.1
    = spoken (main_loop (filter (λ ev, blank_line ev = false) inputs) out' w).1.1 /\
  (main_loop inputs out w).1.2
    = (main_loop (filter (λ ev, blank_line ev = false) inputs) out' w).1.2 /\
  (main_loop inputs out w).2
    = (main_loop (filter (λ ev, blank_line ev = false) inputs) out' w).2.
Proof.
  revert out out' w. induction inputs as [|ev inputs IH]; intros out out' w Hout;
    [done|].
  assert (spoken (out ++ [Prompt]) = spoken out') as Hskip
    by (rewrite spoken_app, Hout; cbn; apply app_nil_r).
  assert (forall o, spoken (out ++ [Prompt] ++ [o]) = spoken (out' ++ [Prompt] ++ [o]))
    as Hboth by (intros o; rewrite !spoken_app; by rewrite Hout).
  rewrite filter_cons. destruct ev as [line| |]; cbn [blank_line].
  - case_bool_decide as Hblank.
    + rewrite decide_False by done. cbn [main_loop].
      rewrite bool_decide_eq_true_2 by done. by apply IH.
    + rewrite decide_True by done. cbn [main_loop].
      rewrite !bool_decide_eq_false_2 by done.
      destruct (ask_assistant_default (strip line) w) as [[answer|e] w'];
        apply IH; rewrite <- !app_assoc; apply Hboth.
  - rewrite decide_True by done. cbn [main_loop fst snd].
    rewrite <- !app_assoc. by rewrite Hboth.
  - rewrite decide_True by done. cbn [main_loop].
    apply IH. rewrite <- !app_assoc. apply Hboth.
Qed.

(** X19: blank lines leave no trace but their prompts: [main] on a script
    and on the script without its blank lines prints the same apart from
    prompts, ends in the same world and in the same state. *)
Theorem main_ignores_blank_lines (inputs : list stdin_event) (w : World) :
  spoken (main inputs w).1.1
    = spoken (main (filter (λ ev, blank_line ev = false) inputs) w).1.1 /\
  (main inputs w).1.2 = (main (filter (λ ev, blank_line ev = false) inputs) w).1.2 /\
  (main inputs w).2 = (main (filter (λ ev, blank_line ev = false) inputs) w).2.
Proof. unfold main. by apply main_loop_skips_blank. Qed.





(** ** [clean_response] removes a short prefix only *)

(** X21: [clean_response] returns its argument or cuts a prefix of at most
    five characters that ends with [". "]: nothing else of the text is
    touched. *)
Theorem clean_response_cuts_prefix (answer : str) :
  exists pre,
    answer = pre ++ clean_response answer /\
    (pre = [] \/ (length pre <= 5 /\ exists num, pre = num ++ dot_space)).
Proof.
  destruct answer as [|c answer'] eqn:Ha; [by exists []; split; [|left]|].
  destruct (isdigit c) eqn:Hd;
    [|exists []; split; [|by left]; unfold clean_response; by rewrite Hd].
  destruct (contains dot_space (take 5 (c :: answer'))) eqn:Hin;
    [|exists []; split; [|by left]; unfold clean_response;
      by rewrite Hd, Hin].
  destruct (clean_response_strips (c :: answer') c eq_refl Hd Hin)
    as (pre & rest & Heq & _ & Hlen & ->).
  exists (pre ++ dot_space). split; [by rewrite <- app_assoc|].
  right. split; [|by exists pre].
  rewrite length_app. change (length dot_space) with 2. lia.
Qed.

(** ** Whitespace around a text *)

Lemma drop_while_all {A} (p : A -> bool) (l : list A) :
  Forall (λ c, p c = true) l -> drop_while p l = [].
Proof. induction 1 as [|x l Hx _ IH]; [done|]. cbn [drop_while]. by rewrite Hx. Qed.

Lemma drop_while_app_all {A} (p : A -> bool) (l s : list A) :
  Forall (λ c, p c = true) l -> drop_while p (l ++ s) = drop_while p s.
Proof.
  induction 1 as [|x l Hx _ IH]; [done|]. cbn [app drop_while]. by rewrite Hx.
Qed.

Lemma drop_while_nil_all {A} (p : A -> bool) (l : list A) :
  drop_while p l = [] -> Forall (λ c, p c = true) l.
Proof.
  induction l as [|x l IH]; [constructor|]. cbn [drop_while].
  destruct (p x) eqn:Hx; [|done]. intros H. constructor; [done | by apply IH].
Qed.

Lemma drop_while_app_stop {A} (p : A -> bool) (s r : list A) :
  drop_while p s <> [] -> drop_while p (s ++ r) = drop_while p s ++ r.
Proof.
  induction s as [|x s IH]; [done|]. cbn [app drop_while].
  destruct (p x); [exact IH | done].
Qed.

Lemma rstrip_padding (s r : str) :
  Forall (λ c, isspace c = true) r -> rstrip (s ++ r) = rstrip s.
Proof.
  intros Hr. unfold rstrip. rewrite reverse_app.
  rewrite drop_while_app_all; [done|]. by apply Forall_reverse.
Qed.

(** Whitespace before and after a text does not change what [strip]
    returns. *)
Lemma strip_padding (l s r : str) :
  Forall (λ c, isspace c = true) l -> Forall (λ c, isspace c = true) r ->
  strip (l ++ s ++ r) = strip s.
Proof.
  intros Hl Hr. unfold strip, lstrip. rewrite drop_while_app_all by done.
  destruct (drop_while isspace s) as [|x k] eqn:Hs.
  - apply drop_while_nil_all in Hs.
    rewrite drop_while_all; [done|]. by apply Forall_app.
  - rewrite drop_while_app_stop by (by rewrite Hs). rewrite Hs.
    by apply rstrip_padding.
Qed.

(** X22: [should_process] does not see whitespace around the question. *)
Theorem should_process_ignores_padding (l question r : str) :
  Forall (λ c, isspace c = true) l -> Forall (λ c, isspace c = true) r ->
  should_process (l ++ question ++ r) = should_process question.
Proof. intros Hl Hr. unfold should_process. by rewrite strip_padding. Qed.

(** X23: [main] trims what is typed before anything else looks at it: a
    line with whitespace around it gives the session of the bare line,
    output and memos alike. *)
Theorem main_trims_input (l line r : str) (rest : list stdin_event) (w : World) :
  Forall (λ c, isspace c = true) l -> Forall (λ c, isspace c = true) r ->
  main (Typed (l ++ line ++ r) :: rest) w = main (Typed line :: rest) w.
Proof.
  intros Hl Hr. unfold main. cbn [main_loop]. by rewrite strip_padding.
Qed.

(** ** [get_text_hash] *)

Lemma le_bytes_length (n : nat) (x : N) : length (md5.le_bytes n x) = n.
Proof. revert x. induction n as [|n IH]; intros x; [done|]. cbn. by rewrite IH. Qed.

Lemma le_bytes_bytes (n : nat) (x : N) :
  Forall (λ b, (b < 256)%N) (md5.le_bytes n x).
Proof.
  revert x. induction n as [|n IH]; intros x; [constructor|].
  cbn [md5.le_bytes]. constructor; [|apply IH].
  apply N.mod_lt. lia.
Qed.

(** A digest has 16 bytes. *)
Lemma digest_length (msg : list N) : length (md5.digest msg) = 16.
Proof.
  unfold md5.digest. destruct (foldl _ _ _) as [[[a b] c] d].
  by rewrite !length_app, !le_bytes_length.
Qed.

Lemma digest_bytes (msg : list N) : Forall (λ b, (b < 256)%N) (md5.digest msg).
Proof.
  unfold md5.digest. destruct (foldl _ _ _) as [[[a b] c] d].
  rewrite !Forall_app. repeat split; apply le_bytes_bytes.
Qed.

Lemma hex_digit_lower (d : N) : (d < 16)%N -> hex_lower (md5.hex_digit d) = true.
Proof.
  intros Hd. unfold hex_lower, md5.hex_digit.
  destruct (d <? 10)%N eqn:E.
  - apply N.ltb_lt in E. apply orb_true_iff. left.
    apply andb_true_iff. split; [apply N.leb_le | apply N.leb_le]; lia.
  - apply N.ltb_ge in E. apply orb_true_iff. right.
    apply andb_true_iff. split; [apply N.leb_le | apply N.leb_le]; lia.
Qed.

Lemma hexdigest_length (bs : list N) : length (md5.hexdigest bs) = 2 * length bs.
Proof.
  unfold md5.hexdigest. induction bs as [|b bs IH]; [done|].
  cbn [mbind list_bind]. rewrite length_app, IH. cbn [length]. lia.
Qed.

Lemma hexdigest_lower (bs : list N) :
  Forall (λ b, (b < 256)%N) bs ->
  Forall (λ c, hex_lower c = true) (md5.hexdigest bs).
Proof.
  unfold md5.hexdigest. induction 1 as [|b bs Hb _ IH]; [constructor|].
  cbn [mbind list_bind]. apply Forall_app. split; [|exact IH].
  repeat constructor; apply hex_digit_lower.
  - apply N.Div0.div_lt_upper_bound. lia.
  - apply N.mod_lt. lia.
Qed.

Lemma utf8_encode_char_None (c : N) : utf8_encode_char c = None <-> unencodable c.
Proof.
  unfold utf8_encode_char, unencodable.
  destruct (c <? 128)%N eqn:E1; [apply N.ltb_lt in E1; split; [done | lia]|].
  destruct (c <? 2048)%N eqn:E2; [apply N.ltb_lt in E2; split; [done | lia]|].
  apply N.ltb_ge in E1, E2.
  destruct (55296 <=? c)%N eqn:E3; destruct (c <=? 57343)%N eqn:E4; cbn [andb];
    try apply N.leb_le in E3; try apply N.leb_gt in E3;
    try apply N.leb_le in E4; try apply N.leb_gt in E4;
    [split; [intros _; lia | done]|..];
    (destruct (c <? 65536)%N eqn:E5;
     [apply N.ltb_lt in E5; split; [done | lia]|]; apply N.ltb_ge in E5;
     destruct (c <? 1114112)%N eqn:E6;
     [apply N.ltb_lt in E6; split; [done | lia]
     |apply N.ltb_ge in E6; split; [intros _; lia | done]]).
Qed.

(** X24: a hash that [get_text_hash] returns is a text of 32 characters
    among [0-9a-f]. *)
Theorem get_text_hash_shape (text h : str) :
  get_text_hash text = Some h ->
  length h = 32 /\ Forall (λ c, hex_lower c = true) h.
Proof.
  unfold get_text_hash. intros H.
  apply fmap_Some in H as (d & Hd & ->).
  apply fmap_Some in Hd as (bs & _ & ->).
  split.
  - rewrite hexdigest_length, digest_length. done.
  - apply hexdigest_lower, digest_bytes.
Qed.

(** X25: [get_text_hash] raises ([UnicodeEncodeError] of the encoding)
    exactly on the texts that hold a surrogate, or a number that is no
    code point; every other text has a hash. *)
Theorem get_text_hash_raises (text : str) :
  get_text_hash text = None <-> Exists unencodable text.
Proof.
  unfold get_text_hash, utf8_encode. rewrite !fmap_None, mapM_None.
  rewrite !Exists_exists.
  split; intros (c & Hin & Hc); exists c; (split; [done|]);
    by apply utf8_encode_char_None.
Qed.

(** ** [generate_smart_response] as a whole *)

(** X26: [generate_smart_response] never raises and never touches the files,
    the service or the memo of the loader; with a score outside the
    partial band it leaves the whole world as it was, so no request is
    made. *)
Theorem generate_smart_response_never_raises (uq mq ma : str) (s : Q) (w : World) :
  exists answer w',
    generate_smart_response uq mq ma s w = (Ok answer, w') /\
    files w' = files w /\ service w' = service w /\ qa_cache w' = qa_cache w /\
    ((s < SIMILARITY_PARTIAL)%Q \/ (SIMILARITY_GOOD <= s)%Q -> w' = w).
Proof.
  destruct (generate_smart_response uq mq ma s w) as [r w'] eqn:Hg.
  destruct (generate_smart_response_effects _ _ _ _ _ _ _ Hg)
    as [(-> & Hs & ->) | [(-> & Hs & ->) | (resp & -> & H1 & H2 & Hget)]].
  - by exists ma, w.
  - by exists DEFAULT_RESPONSE, w.
  - exists (HEDGE ++ resp), w'. split; [done|].
    destruct (get_api_response_effects _ _ _ _ Hget) as (_ & Hf & Hsv & Hq & _).
    repeat split; try done.
    intros [Hlt | Hge].
    + exfalso. apply (Qlt_irrefl s). by eapply Qlt_le_trans.
    + exfalso. apply (Qlt_irrefl s). by eapply Qlt_le_trans.
Qed.

End Chats.

(** ** The program at work *)

(** Literals are decoded to code points. *)
Example py_dot_space : dot_space = [46; 32]%N.
Proof. reflexivity. Qed.

Example py_cyrillic : py "привет" = [1087; 1088; 1080; 1074; 1077; 1090]%N.
Proof. vm_compute. reflexivity. Qed.

(** The example of the documentation of [SequenceMatcher.ratio]. *)
Example ratio_abcd_bcde : difflib.ratio (py "abcd") (py "bcde") = (3 # 4)%Q.
Proof. vm_compute. reflexivity. Qed.

(** The example of the specification: the question without its
    punctuation scores 38/39 and gets the stored answer. *)
Example ask_hours_plain :
  (ask_assistant isdigit_basic lower_basic Q_HOURS_PLAIN QUESTIONS_TXT ANSWERS_TXT
                 world_offline).1 = Ok A_HOURS
  /\ similarity lower_basic Q_HOURS_PLAIN Q_HOURS = (38 # 39)%Q.
Proof. vm_compute. by split. Qed.

(** Loading the files of the example yields [demo_kb] and
    [world_loaded]. *)
Example load_demo :
  load_qa_pairs isdigit_basic QUESTIONS_TXT ANSWERS_TXT world_offline
    = (Ok demo_kb, world_loaded).
Proof. vm_compute. reflexivity. Qed.

(** Witness of C9: after a first load, the files disappear; the second
    load still returns the four pairs and opens nothing. *)
Lemma load_qa_pairs_second_call_cached_witness :
  let first := load_qa_pairs isdigit_basic QUESTIONS_TXT ANSWERS_TXT world_offline in
  exists kb w2,
    first.1 = Ok kb /\ length kb = 4 /\
    load_qa_pairs isdigit_basic QUESTIONS_TXT ANSWERS_TXT (set_files no_files first.2)
      = (Ok kb, w2) /\
    trace w2 = trace first.2.
Proof.
  intros first.
  destruct first as [r w1] eqn:E. cbn [fst snd].
  assert (exists kb, r = Ok kb /\ length kb = 4) as (kb & -> & Hlen).
  { apply (f_equal fst) in E. cbn [fst] in E. subst r. subst first.
    vm_compute. eexists. split; reflexivity. }
  destruct (load_qa_pairs_second_call_cached isdigit_basic
              QUESTIONS_TXT ANSWERS_TXT world_offline w1 kb E no_files)
    as (w2 & H2 & Ht).
  exists kb, w2. done.
Defined.

(** Witness of C7: five retained questions, four retained answers, four
    pairs. *)
Lemma load_qa_pairs_positional_witness :
  exists kb w',
    load_qa_pairs isdigit_basic QUESTIONS_TXT ANSWERS_TXT world_offline = (Ok kb, w') /\
    length kb = min (length (retained demo_questions)) (length (retained demo_answers)) /\
    (forall n q a, retained demo_questions !! n = Some q ->
                   retained demo_answers !! n = Some a ->
                   kb !! n = Some (q, clean_response isdigit_basic a)).
Proof.
  apply (load_qa_pairs_positional isdigit_basic QUESTIONS_TXT ANSWERS_TXT
           world_offline demo_questions demo_answers); reflexivity.
Defined.

(** Counterexample to C2: ["42. Special code"] and ["10. Text"] are not
    stored as they are; the numbering is stripped from both. *)
Lemma answer_lines_multi_digit_stripped :
  answer_lines isdigit_basic [py "42. Special code" ++ nl; py "10. Text" ++ nl]
    = [py "Special code"; py "Text"]
  /\ strip (py "42. Special code" ++ nl) = py "42. Special code"
  /\ py "Special code" <> py "42. Special code".
Proof. vm_compute. repeat split; discriminate. Qed.

(** Witness of C2, amended: three digits are stripped, four are kept. *)
Lemma answer_lines_numbering_witness :
  answer_lines isdigit_basic ([] ++ (py "123. Text" ++ nl) :: []) = [py "Text"]
  /\ answer_lines isdigit_basic ([] ++ (py "1234. Text" ++ nl) :: []) = [py "1234. Text"].
Proof.
  pose proof (answer_lines_numbering isdigit_basic) as [H _].
  split.
  - apply (H [] [] (py "123. Text" ++ nl) (py "123") (py "Text") 49%N);
      [reflexivity | reflexivity | reflexivity
       | apply (bool_decide_unpack _); vm_compute; exact I].
  - apply (H [] [] (py "1234. Text" ++ nl) (py "1234") (py "Text") 49%N);
      [reflexivity | reflexivity | reflexivity
       | apply (bool_decide_unpack _); vm_compute; exact I].
Defined.



(** Witness of C10: the service answers ["1. We open at ten on
    weekends."]; the numbering is gone from the answer. *)
Lemma partial_answer_cleaned_witness :
  exists w',
    generate_smart_response isdigit_basic Q_WEEKENDS Q_OFFICE A_OFFICE (26 # 57)
                            world_online
      = (Ok (HEDGE ++ clean_response isdigit_basic (py "1. We open at ten on weekends.")), w')
    /\ clean_response isdigit_basic (py "1. We open at ten on weekends.")
       = py "We open at ten on weekends.".
Proof.
  destruct (partial_answer_cleaned isdigit_basic Q_WEEKENDS Q_OFFICE A_OFFICE
              (py "1. We open at ten on weekends.") (26 # 57) world_online)
    as ([w' Hgen] & _ & _);
    [vm_compute; discriminate | reflexivity | reflexivity | reflexivity |].
  exists w'. split; [exact Hgen | vm_compute; reflexivity].
Defined.

(** The failure path at work: the service is down and the best match of
    the question scores 26/57. *)
Lemma api_failure_absorbed_witness :
  exists w2,
    get_api_response isdigit_basic (partial_messages Q_WEEKENDS Q_OFFICE A_OFFICE)
                     world_loaded = (Ok DEFAULT_RESPONSE, w2) /\
    generate_smart_response isdigit_basic Q_WEEKENDS Q_OFFICE A_OFFICE (26 # 57)
                            world_loaded = (Ok (HEDGE ++ DEFAULT_RESPONSE), w2) /\
    ask_assistant isdigit_basic lower_basic Q_WEEKENDS QUESTIONS_TXT ANSWERS_TXT
                  world_offline = (Ok (HEDGE ++ DEFAULT_RESPONSE), w2).
Proof.
  apply (api_failure_absorbed isdigit_basic lower_basic Q_WEEKENDS QUESTIONS_TXT
           ANSWERS_TXT Q_OFFICE A_OFFICE (26 # 57) world_offline world_loaded
           demo_kb APIConnectionError).
  - vm_compute. discriminate.
  - vm_compute. reflexivity.
  - vm_compute. reflexivity.
  - vm_compute. reflexivity.
  - discriminate.
  - vm_compute. discriminate.
  - reflexivity.
  - reflexivity.
  - reflexivity.
Defined.

(** C3, at a failing input: the service cannot be reached and the best
    match of the question scores 26/57, in the partial band. Nothing is
    raised, but the answer is not the default refusal: the hedging phrase
    precedes it. *)
Lemma api_failure_answer_is_hedged :
  (find_best_match_extended lower_basic Q_WEEKENDS demo_kb).2 = (26 # 57)%Q
  /\ (ask_assistant isdigit_basic lower_basic Q_WEEKENDS QUESTIONS_TXT ANSWERS_TXT
                    world_offline).1 = Ok (HEDGE ++ DEFAULT_RESPONSE)
  /\ HEDGE ++ DEFAULT_RESPONSE <> DEFAULT_RESPONSE.
Proof. vm_compute. repeat split. discriminate. Qed.

(** Witness of C4: an empty base; an exit at the first pair although
    nothing was compared with the later ones; the first best of a base
    without exit. *)
Lemma find_best_match_extended_policy_witness :
  find_best_match_extended lower_basic Q_HOURS_PLAIN [] = ([], [], 0%Q)
  /\ find_best_match_extended lower_basic Q_HOURS_PLAIN demo_kb
     = (Q_HOURS, A_HOURS, similarity lower_basic Q_HOURS_PLAIN Q_HOURS)
  /\ ((find_best_match_extended lower_basic Q_WEEKENDS demo_kb = ([], [], 0%Q) /\
       forall p, p ∈ demo_kb -> (similarity lower_basic Q_WEEKENDS p.1 <= 0)%Q) \/
      (exists i q a,
         demo_kb !! i = Some (q, a) /\
         find_best_match_extended lower_basic Q_WEEKENDS demo_kb
           = (q, a, similarity lower_basic Q_WEEKENDS q) /\
         (0 < similarity lower_basic Q_WEEKENDS q)%Q /\
         (forall j p, j < i -> demo_kb !! j = Some p ->
            (similarity lower_basic Q_WEEKENDS p.1 < similarity lower_basic Q_WEEKENDS q)%Q) /\
         (forall p, p ∈ demo_kb ->
            (similarity lower_basic Q_WEEKENDS p.1 <= similarity lower_basic Q_WEEKENDS q)%Q))).
Proof.
  destruct (find_best_match_extended_policy lower_basic Q_HOURS_PLAIN []) as (H1 & _ & _).
  destruct (find_best_match_extended_policy lower_basic Q_HOURS_PLAIN demo_kb)
    as (_ & H2 & _).
  destruct (find_best_match_extended_policy lower_basic Q_WEEKENDS demo_kb)
    as (_ & _ & H3).
  split; [by apply H1|]. split.
  - apply (H2 [] Q_HOURS A_HOURS (tail demo_kb)).
    + reflexivity.
    + intros p Hp. by apply elem_of_nil in Hp.
    + vm_compute. discriminate.
  - apply H3. intros p Hp. unfold demo_kb in Hp.
    repeat (apply elem_of_cons in Hp as [-> | Hp]; [vm_compute; reflexivity|]).
    by apply elem_of_nil in Hp.
Defined.

(** Witness of C5, amended: a blank input, a short one, a greeting in
    capitals. *)
Lemma ask_assistant_prefilter_witness :
  ask_assistant isdigit_basic lower_basic (py "   ") QUESTIONS_TXT ANSWERS_TXT world_offline
    = (Ok ASK_PROMPT, world_offline)
  /\ ask_assistant isdigit_basic lower_basic (py " Hi? ") QUESTIONS_TXT ANSWERS_TXT world_offline
    = (Ok DEFAULT_RESPONSE, world_offline)
  /\ ask_assistant isdigit_basic lower_basic (py "ПРИВЕТ") QUESTIONS_TXT ANSWERS_TXT world_offline
    = (Ok DEFAULT_RESPONSE, world_offline).
Proof.
  split; [|split].
  - apply (ask_assistant_prefilter isdigit_basic lower_basic (py "   ")).
    vm_compute. reflexivity.
  - apply (ask_assistant_prefilter isdigit_basic lower_basic (py " Hi? ")).
    + vm_compute. discriminate.
    + left. vm_compute. lia.
  - apply (ask_assistant_prefilter isdigit_basic lower_basic (py "ПРИВЕТ")).
    + vm_compute. discriminate.
    + right. apply (bool_decide_unpack _). vm_compute. exact I.
Defined.

(** Counterexample to C5: a blank input has a trimmed length of 0 and is
    answered with the request to ask a question, not the default refusal;
    and two dotted capital I's have a trimmed length of 2, yet lower-cased
    they are 4 code points and the knowledge base is loaded. *)
Lemma ask_assistant_short_inputs_differ :
  length (strip []) <= 3
  /\ (ask_assistant isdigit_basic lower_basic [] QUESTIONS_TXT ANSWERS_TXT world_offline).1
     = Ok ASK_PROMPT
  /\ ASK_PROMPT <> DEFAULT_RESPONSE
  /\ length (strip (py "İİ")) = 2
  /\ trace (ask_assistant isdigit_basic lower_basic (py "İİ") QUESTIONS_TXT ANSWERS_TXT
                          world_offline).2
     = [Opened QUESTIONS_TXT; Opened ANSWERS_TXT].
Proof. vm_compute. repeat split; (lia || discriminate). Qed.

(** Witness of C6, amended: the last question of the base, asked as it
    is stored; the three pairs before it score below 0.95. *)
Lemma ask_assistant_exact_match_witness :
  find_best_match_extended lower_basic Q_OFFICE demo_kb = (Q_OFFICE, A_OFFICE, 1%Q)
  /\ ask_assistant isdigit_basic lower_basic Q_OFFICE QUESTIONS_TXT ANSWERS_TXT world_offline
     = (Ok A_OFFICE, world_loaded).
Proof.
  destruct (ask_assistant_exact_match isdigit_basic lower_basic Q_OFFICE QUESTIONS_TXT
              ANSWERS_TXT A_OFFICE world_offline world_loaded (take 3 demo_kb) [])
    as (H1 & H2 & _).
  - vm_compute. discriminate.
  - vm_compute. reflexivity.
  - vm_compute. reflexivity.
  - intros p Hp. change (take 3 demo_kb) with
      [(py "What are your hours?", py "9 to 5.");
       (py "How do I reset my password?", py "Contact support.");
       (py "Hi?", py "Special code")] in Hp.
    repeat (apply elem_of_cons in Hp as [-> | Hp]; [vm_compute; reflexivity|]).
    by apply elem_of_nil in Hp.
  - discriminate.
  - split; [exact H1 | exact H2].
Defined.

(** Counterexample to C6: the base holds ["Hi?"] with the answer
    ["Special code"], but the question is too short to be processed; and
    in a base where ["What are your hours??"] precedes ["What are your
    hours?"], the latter question gets the answer of the former, at score
    40/41. *)
Lemma exact_duplicate_not_returned :
  (py "Hi?", py "Special code") ∈ demo_kb
  /\ (ask_assistant isdigit_basic lower_basic (py "Hi?") QUESTIONS_TXT ANSWERS_TXT
                    world_offline).1 = Ok DEFAULT_RESPONSE
  /\ DEFAULT_RESPONSE <> py "Special code"
  /\ (load_qa_pairs isdigit_basic DUP_QUESTIONS_TXT DUP_ANSWERS_TXT world_offline).1
     = Ok dup_kb
  /\ (Q_HOURS, py "Answer B") ∈ dup_kb
  /\ find_best_match_extended lower_basic Q_HOURS dup_kb
     = (py "What are your hours??", py "Answer A", (40 # 41)%Q)
  /\ (ask_assistant isdigit_basic lower_basic Q_HOURS DUP_QUESTIONS_TXT DUP_ANSWERS_TXT
                    world_offline).1 = Ok (py "Answer A").
Proof.
  split; [apply (bool_decide_unpack _); vm_compute; exact I|].
  split; [vm_compute; reflexivity|].
  split; [vm_compute; discriminate|].
  split; [vm_compute; reflexivity|].
  split; [apply (bool_decide_unpack _); vm_compute; exact I|].
  split; vm_compute; reflexivity.
Qed.

(** Witness of C8, amended: no file at all, nothing memoised. *)
Lemma load_qa_pairs_missing_file_witness :
  (exists w', load_qa_pairs isdigit_basic QUESTIONS_TXT ANSWERS_TXT world_no_files
                = (Ok [], w'))
  /\ (exists w', ask_assistant isdigit_basic lower_basic Q_HOURS QUESTIONS_TXT ANSWERS_TXT
                               world_no_files = (Ok DEFAULT_RESPONSE, w')).
Proof.
  destruct (load_qa_pairs_missing_file isdigit_basic lower_basic QUESTIONS_TXT ANSWERS_TXT
              world_no_files) as [H1 H2].
  - reflexivity.
  - left. reflexivity.
  - split; [exact H1|]. apply H2. vm_compute. discriminate.
Defined.

(** Counterexample to C8: both files are missing, yet the loader returns
    the four pairs it has memoised; the answers file is missing and the
    questions path is a directory: the loader raises; no file exists and
    the question is blank: the answer is not the default refusal. *)
Lemma missing_file_not_always_empty :
  (load_qa_pairs isdigit_basic QUESTIONS_TXT ANSWERS_TXT (set_files no_files world_loaded)).1
    = Ok demo_kb
  /\ demo_kb <> []
  /\ demo_files ANSWERS_TXT <> NoFile /\ no_files ANSWERS_TXT = NoFile
  /\ demo_files (py "missing.txt") = NoFile
  /\ (load_qa_pairs isdigit_basic SOME_DIRECTORY (py "missing.txt") world_offline).1
     = Raise IsADirectoryError
  /\ (ask_assistant isdigit_basic lower_basic (py "  ") QUESTIONS_TXT ANSWERS_TXT
                    world_no_files).1 = Ok ASK_PROMPT
  /\ ASK_PROMPT <> DEFAULT_RESPONSE.
Proof. vm_compute. repeat split; discriminate. Qed.

(** ** The remaining functions at work *)

(** [compress_text] on the alphabet with the limit 9: four letters, the
    marker, five letters; 16 characters for a limit of 9. *)
Example compress_text_alphabet :
  compress_text LONG_TEXT 9 = py "abcd [...] vwxyz".
Proof. vm_compute. reflexivity. Qed.

(** A session: a question, a blank line, the end of the input, an
    interrupt; the line after the interrupt is never read. *)
Example main_session :
  (main isdigit_basic lower_basic session world_session).1.1
    = [Banner; Prompt; Answer A_HOURS; Prompt; Prompt; ErrorEOF; Prompt; Shutdown]
  /\ (main isdigit_basic lower_basic session world_session).2 = false.
Proof. vm_compute. by split. Qed.

(** The default knowledge file is a directory: every question is
    answered with the error of [open], and the loop goes on. *)
Example main_session_directories :
  (main isdigit_basic lower_basic [Typed Q_HOURS; Typed Q_OFFICE] world_directories).1.1
    = [Banner; Prompt; ErrorRaised IsADirectoryError;
       Prompt; ErrorRaised IsADirectoryError]
  /\ (main isdigit_basic lower_basic [Typed Q_HOURS; Typed Q_OFFICE] world_directories).2
     = true.
Proof. vm_compute. by split. Qed.

Lemma load_qa_pairs_well_formed_witness :
  load_qa_pairs isdigit_basic QUESTIONS_TXT ANSWERS_TXT world_offline
    = (Ok demo_kb, world_loaded)
  /\ forall q a, (q, a) ∈ demo_kb -> q <> [] /\ strip q = q /\ a <> [].
Proof.
  assert (load_qa_pairs isdigit_basic QUESTIONS_TXT ANSWERS_TXT world_offline
            = (Ok demo_kb, world_loaded)) as Hload by (vm_compute; reflexivity).
  split; [exact Hload|].
  apply (load_qa_pairs_well_formed isdigit_basic QUESTIONS_TXT ANSWERS_TXT
           world_offline world_loaded demo_questions demo_answers demo_kb);
    [reflexivity | reflexivity | reflexivity | exact Hload].
Defined.



Lemma get_api_response_failure_memoised_witness :
  exists w1,
    get_api_response isdigit_basic (partial_messages Q_WEEKENDS Q_OFFICE A_OFFICE)
                     world_offline = (Ok DEFAULT_RESPONSE, w1) /\
    forall (sv : request -> reply) (fs : str -> file),
      exists w2,
        get_api_response isdigit_basic (partial_messages Q_WEEKENDS Q_OFFICE A_OFFICE)
                         (set_service sv (set_files fs w1))
          = (Ok DEFAULT_RESPONSE, w2) /\
        trace w2 = trace w1.
Proof.
  apply (get_api_response_failure_memoised isdigit_basic
           (partial_messages Q_WEEKENDS Q_OFFICE A_OFFICE) world_offline
           APIConnectionError); reflexivity.
Defined.

Lemma ask_assistant_never_empty_witness :
  ask_assistant isdigit_basic lower_basic Q_HOURS_PLAIN QUESTIONS_TXT ANSWERS_TXT
                world_offline = (Ok A_HOURS, world_loaded)
  /\ A_HOURS <> [].
Proof.
  assert (ask_assistant isdigit_basic lower_basic Q_HOURS_PLAIN QUESTIONS_TXT ANSWERS_TXT
                        world_offline = (Ok A_HOURS, world_loaded)) as H
    by (vm_compute; reflexivity).
  split; [exact H|].
  exact (ask_assistant_never_empty isdigit_basic lower_basic _ _ _ _ _ _ H).
Defined.


Lemma ask_assistant_effects_witness :
  exists paths reqs,
    trace (ask_assistant isdigit_basic lower_basic Q_WEEKENDS QUESTIONS_TXT ANSWERS_TXT
                         world_offline).2
      = trace world_offline ++ (Opened <$> paths) ++ (Requested <$> reqs) /\
    length paths <= 2 /\ length reqs <= 1.
Proof.
  destruct (ask_assistant_effects isdigit_basic lower_basic Q_WEEKENDS QUESTIONS_TXT
              ANSWERS_TXT world_offline
              (ask_assistant isdigit_basic lower_basic Q_WEEKENDS QUESTIONS_TXT ANSWERS_TXT
                             world_offline).2
              (ask_assistant isdigit_basic lower_basic Q_WEEKENDS QUESTIONS_TXT ANSWERS_TXT
                             world_offline).1) as (_ & _ & H).
  - by destruct (ask_assistant _ _ _ _ _ _).
  - exact H.
Defined.

Lemma ask_assistant_no_match_witness :
  ask_assistant isdigit_basic lower_basic (py "zzzzzz") QUESTIONS_TXT ANSWERS_TXT
                world_offline = (Ok DEFAULT_RESPONSE, world_loaded).
Proof.
  apply (ask_assistant_no_match isdigit_basic lower_basic (py "zzzzzz") QUESTIONS_TXT
           ANSWERS_TXT world_offline world_loaded demo_kb).
  - vm_compute. discriminate.
  - vm_compute. reflexivity.
  - vm_compute. reflexivity.
  - intros p Hp. unfold demo_kb in Hp.
    repeat (apply elem_of_cons in Hp as [-> | Hp]; [vm_compute; reflexivity|]).
    by apply elem_of_nil in Hp.
Defined.

Lemma ask_assistant_answer_origin_witness :
  A_HOURS = ASK_PROMPT \/ A_HOURS = DEFAULT_RESPONSE \/
  (exists kb q,
     load_qa_pairs isdigit_basic QUESTIONS_TXT ANSWERS_TXT world_offline
       = (Ok kb, world_loaded) /\
     (q, A_HOURS) ∈ kb /\
     (SIMILARITY_GOOD <= similarity lower_basic Q_HOURS_PLAIN q)%Q) \/
  (exists response, A_HOURS = HEDGE ++ response).
Proof.
  apply (ask_assistant_answer_origin isdigit_basic lower_basic Q_HOURS_PLAIN
           QUESTIONS_TXT ANSWERS_TXT A_HOURS world_offline world_loaded).
  vm_compute. reflexivity.
Defined.

Lemma ask_assistant_repeat_witness :
  exists w1 w2,
    ask_assistant isdigit_basic lower_basic Q_WEEKENDS QUESTIONS_TXT ANSWERS_TXT
                  world_offline = (Ok (HEDGE ++ DEFAULT_RESPONSE), w1) /\
    ask_assistant isdigit_basic lower_basic Q_WEEKENDS QUESTIONS_TXT ANSWERS_TXT
                  (set_service service_up (set_files no_files w1))
      = (Ok (HEDGE ++ DEFAULT_RESPONSE), w2) /\
    trace w2 = trace w1.
Proof.
  assert (exists w1,
            ask_assistant isdigit_basic lower_basic Q_WEEKENDS QUESTIONS_TXT ANSWERS_TXT
                          world_offline = (Ok (HEDGE ++ DEFAULT_RESPONSE), w1))
    as [w1 H1] by (vm_compute; by eexists).
  destruct (ask_assistant_repeat isdigit_basic lower_basic _ _ _ _ _ _ H1
              no_files service_up) as (w2 & H2 & Ht).
  exists w1, w2. split; [exact H1|]. split; [exact H2 | exact Ht].
Defined.

Lemma ask_assistant_memos_bounded_witness :
  memo_ok (qa_cache (ask_assistant isdigit_basic lower_basic Q_WEEKENDS QUESTIONS_TXT
                                   ANSWERS_TXT world_full_memo).2)
  /\ memo_ok (api_cache (ask_assistant isdigit_basic lower_basic Q_WEEKENDS QUESTIONS_TXT
                                       ANSWERS_TXT world_full_memo).2).
Proof.
  apply (ask_assistant_memos_bounded isdigit_basic lower_basic Q_WEEKENDS QUESTIONS_TXT
           ANSWERS_TXT world_full_memo _
           (ask_assistant isdigit_basic lower_basic Q_WEEKENDS QUESTIONS_TXT ANSWERS_TXT
                          world_full_memo).1).
  - split; [vm_compute; lia | apply (bool_decide_unpack _); vm_compute; exact I].
  - split; [vm_compute; lia | constructor].
  - by destruct (ask_assistant _ _ _ _ _ _).
Defined.

Lemma compress_text_shape_witness :
  exists head middle tail,
    LONG_TEXT = head ++ middle ++ tail /\
    compress_text LONG_TEXT 9 = head ++ ELLIPSIS ++ tail /\
    length head = Z.to_nat (9 / 2) /\
    length head + length tail = Z.to_nat 9 /\
    length middle = length LONG_TEXT - Z.to_nat 9.
Proof. apply (compress_text_shape LONG_TEXT 9); [lia | vm_compute; reflexivity]. Defined.

Lemma compress_text_length_witness :
  length (compress_text LONG_TEXT 20) = 27
  /\ length LONG_TEXT = 26.
Proof.
  destruct (compress_text_length LONG_TEXT 20) as (H & _ & _);
    [lia | vm_compute; reflexivity |].
  split; [exact H | reflexivity].
Defined.

Lemma compress_text_idempotent_witness :
  compress_text (compress_text LONG_TEXT 9) 9 = compress_text LONG_TEXT 9.
Proof. apply (compress_text_idempotent LONG_TEXT 9). lia. Defined.

Lemma compress_text_zero_limit_witness :
  compress_text LONG_TEXT 0 = ELLIPSIS ++ LONG_TEXT.
Proof. apply (compress_text_zero_limit LONG_TEXT). discriminate. Defined.

Lemma main_loop_stops_at_interrupt_witness :
  (main_loop isdigit_basic lower_basic session_start [Banner] world_session).2 = true
  /\ main_loop isdigit_basic lower_basic session [Banner] world_session
     = ((main_loop isdigit_basic lower_basic session_start [Banner] world_session).1.1
          ++ [Prompt; Shutdown],
        (main_loop isdigit_basic lower_basic session_start [Banner] world_session).1.2,
        false).
Proof.
  assert (KeyboardInterrupt ∉ session_start) as Hno
    by (apply (bool_decide_unpack _); vm_compute; exact I).
  split.
  - apply (main_loop_stops_at_interrupt isdigit_basic lower_basic session_start
             [Banner] world_session). exact Hno.
  - apply (main_loop_stops_at_interrupt isdigit_basic lower_basic session
             [Banner] world_session) with (l2 := [Typed Q_OFFICE]);
      [reflexivity | exact Hno].
Defined.

Example get_text_hash_abc :
  get_text_hash (py "abc") = Some (py "900150983cd24fb0d6963f7d28e17f72").
Proof. vm_compute. reflexivity. Qed.

Example get_text_hash_lone_surrogate : get_text_hash [97; 55296]%N = None.
Proof. vm_compute. reflexivity. Qed.

Lemma should_process_ignores_padding_witness :
  Forall (λ c, isspace c = true) PADDING /\
  should_process lower_basic (PADDING ++ Q_HOURS ++ PADDING)
  = should_process lower_basic Q_HOURS.
Proof.
  assert (Forall (λ c, isspace c = true) PADDING) as Hp
    by (repeat constructor).
  split; [exact Hp|].
  exact (should_process_ignores_padding lower_basic PADDING Q_HOURS PADDING Hp Hp).
Defined.

Lemma main_trims_input_witness :
  Forall (λ c, isspace c = true) PADDING /\
  main isdigit_basic lower_basic [Typed (PADDING ++ Q_HOURS ++ PADDING)] world_session
  = main isdigit_basic lower_basic [Typed Q_HOURS] world_session.
Proof.
  assert (Forall (λ c, isspace c = true) PADDING) as Hp
    by (repeat constructor).
  split; [exact Hp|].
  exact (main_trims_input isdigit_basic lower_basic PADDING Q_HOURS PADDING []
           world_session Hp Hp).
Defined.

Lemma get_text_hash_shape_witness :
  get_text_hash (py "abc") = Some (py "900150983cd24fb0d6963f7d28e17f72") /\
  length (py "900150983cd24fb0d6963f7d28e17f72") = 32.
Proof.
  assert (get_text_hash (py "abc") = Some (py "900150983cd24fb0d6963f7d28e17f72"))
    as H by (vm_compute; reflexivity).
  split; [exact H|].
  exact (proj1 (get_text_hash_shape _ _ H)).
Defined.
